(** * porterminal: session registry, replay buffer and websocket pumps

    A shallow embedding of the parts of [porterminal] that carry its
    algorithmic content:

    - [src/porterminal/session.py]: [TerminalSession] (replay buffer) and
      [SessionRegistry] (create / reconnect / disconnect / destroy);
    - [src/porterminal/websocket/rate_limiter.py]: the token bucket;
    - [src/porterminal/websocket/buffer.py]: the send-side [OutputBuffer];
    - [src/porterminal/websocket/handler.py] and [handlers.py]: the two
      terminal-input paths and the message registry;
    - [src/porterminal/pty/fake.py]: the in-memory PTY backend;
    - [src/porterminal/app.py]: the websocket endpoint, up to the hand-over
      to the session handler.

    Python objects that are mutated in place become explicit state: every
    method takes the object's state and returns the new one.  Byte strings
    are [list byte]; Python's unbounded [int] is [Z]; dictionaries and sets
    are [gmap] and [gset]. *)

From Stdlib Require Import ZArith QArith List Bool Lia.
From Stdlib.Strings Require Import Byte.
From Stdlib Require Import PrimFloat Uint63.
From Stdlib Require Import SpecFloat FloatOps FloatAxioms.
From stdpp Require Import gmap strings list.

Open Scope Z_scope.

(** ** Byte strings *)

Abbreviation bytes := (list byte).

(** [len(data)] *)
Definition len (data : bytes) : Z := Z.of_nat (length data).

(** [b"".join(chunks)] *)
Definition join (chunks : list bytes) : bytes := concat chunks.

(** Total number of bytes held by a deque of chunks. *)
Definition total (chunks : list bytes) : Z :=
  fold_right (fun c acc => len c + acc) 0 chunks.

(** [hay.startswith(needle)] *)
Fixpoint startswith (needle hay : bytes) : bool :=
  match needle, hay with
  | [], _ => true
  | _ :: _, [] => false
  | n :: needle', h :: hay' => Byte.eqb n h && startswith needle' hay'
  end.

(** [needle in hay] for byte strings: some position of [hay] starts with
    [needle]. *)
Fixpoint bytes_in (needle hay : bytes) : bool :=
  match hay with
  | [] => startswith needle []
  | _ :: hay' => startswith needle hay || bytes_in needle hay'
  end.

(** Python slice bounds: a negative bound counts from the end, and every
    bound is clamped to [0 .. len]. *)
Definition slice_bound (n k : Z) : nat :=
  Z.to_nat (if k <? 0 then Z.max (n + k) 0 else Z.min k n).

(** [data[:k]] *)
Definition slice_to (k : Z) (data : bytes) : bytes :=
  firstn (slice_bound (len data) k) data.

(** [data[k:]] *)
Definition slice_from (k : Z) (data : bytes) : bytes :=
  skipn (slice_bound (len data) k) data.

(** ** session.py: constants *)

Definition MAX_SESSIONS_PER_USER : Z := 10.
Definition MAX_TOTAL_SESSIONS : Z := 100.
Definition OUTPUT_BUFFER_MAX_BYTES : Z := 1000000.

(** ED2, "erase entire display": the four bytes [ESC [ 2 J]. *)
Definition ED2 : bytes := [x1b; x5b; x32; x4a].

(** ** session.py: [TerminalSession]

    [pty_manager] and [websocket] are references to objects that live
    outside the session (a PTY manager, a socket); they are modelled as
    handles into the stores of the registry's world below.  Timestamps are
    clock readings. *)

Record TerminalSession := mkSession {
  session_id : string;
  user_id : string;
  pty_manager : nat;
  shell_id : string;
  created_at : Z;
  last_activity : Z;
  output_buffer : list bytes;
  output_buffer_size : Z;
  websocket : option nat;
  is_connected : bool
}.

Definition set_buffer (s : TerminalSession) (buf : list bytes) (size : Z)
  : TerminalSession :=
  mkSession (session_id s) (user_id s) (pty_manager s) (shell_id s)
            (created_at s) (last_activity s) buf size
            (websocket s) (is_connected s).

Definition set_connection (s : TerminalSession) (ws : option nat)
  (connected : bool) : TerminalSession :=
  mkSession (session_id s) (user_id s) (pty_manager s) (shell_id s)
            (created_at s) (last_activity s)
            (output_buffer s) (output_buffer_size s) ws connected.

(** [touch]: [last_activity = datetime.now(UTC)], the clock reading being
    passed in. *)
Definition touch (now : Z) (s : TerminalSession) : TerminalSession :=
  mkSession (session_id s) (user_id s) (pty_manager s) (shell_id s)
            (created_at s) now
            (output_buffer s) (output_buffer_size s)
            (websocket s) (is_connected s).

(** A session as the dataclass constructor builds it in [create_session]:
    empty deque, size 0, no socket, not connected, both timestamps set to
    the current time. *)
Definition new_session (sid uid : string) (pty : nat) (shell : string)
  (now : Z) : TerminalSession :=
  mkSession sid uid pty shell now now [] 0 None false.

Module ReplayBuffer.

(** The trimming loop of [add_to_buffer], for a cap [cap]:
<<
    while self.output_buffer_size > cap and self.output_buffer:
        removed = self.output_buffer.popleft()
        self.output_buffer_size -= len(removed)
>>
    Every iteration pops one chunk, so the loop is a structural recursion on
    the deque. *)
Fixpoint trim (cap : Z) (buf : list bytes) (size : Z) : list bytes * Z :=
  match buf with
  | [] => ([], size)
  | removed :: rest =>
      if size >? cap then trim cap rest (size - len removed) else (buf, size)
  end.

Definition add_to_buffer_cap (cap : Z) (data : bytes) (s : TerminalSession)
  : TerminalSession :=
  let '(buf, size) :=
    if bytes_in ED2 data then ([], 0)
    else (output_buffer s, output_buffer_size s) in
  let buf := buf ++ [data] in
  let size := size + len data in
  let '(buf, size) := trim cap buf size in
  set_buffer s buf size.

(** [TerminalSession.add_to_buffer] *)
Definition add_to_buffer (data : bytes) (s : TerminalSession)
  : TerminalSession :=
  add_to_buffer_cap OUTPUT_BUFFER_MAX_BYTES data s.

(** The deque and the running size [add_to_buffer] has reached when it
    enters its trimming loop, that is after
<<
    if CLEAR_SCREEN_SEQUENCE in data:
        self.clear_buffer()
    self.output_buffer.append(data)
    self.output_buffer_size += len(data)
>>
    The append pushes the total over the cap when [size_before_trim]
    exceeds it: this is the loop's guard on entry. *)
Definition queue_before_trim (data : bytes) (s : TerminalSession)
  : list bytes :=
  (if bytes_in ED2 data then [] else output_buffer s) ++ [data].

Definition size_before_trim (data : bytes) (s : TerminalSession) : Z :=
  (if bytes_in ED2 data then 0 else output_buffer_size s) + len data.

(** [TerminalSession.get_buffered_output] *)
Definition get_buffered_output (s : TerminalSession) : bytes :=
  join (output_buffer s).

(** [TerminalSession.clear_buffer] *)
Definition clear_buffer (s : TerminalSession) : TerminalSession :=
  set_buffer s [] 0.

(** A sequence of [add_to_buffer] calls, oldest chunk first. *)
Definition appends_cap (cap : Z) (chunks : list bytes) (s : TerminalSession)
  : TerminalSession :=
  fold_left (fun s c => add_to_buffer_cap cap c s) chunks s.

Definition appends (chunks : list bytes) (s : TerminalSession)
  : TerminalSession :=
  appends_cap OUTPUT_BUFFER_MAX_BYTES chunks s.

(** *** The specification's reading of the buffer content

    "The most recent chunks whose total size fits under the cap": walking
    from the newest chunk backwards, chunks are kept as long as the running
    total stays within the cap. *)
Fixpoint take_recent (cap : Z) (newest_first : list bytes) : list bytes :=
  match newest_first with
  | [] => []
  | c :: older =>
      if len c <=? cap then c :: take_recent (cap - len c) older else []
  end.

Definition most_recent_fitting (cap : Z) (chunks : list bytes) : list bytes :=
  rev (take_recent cap (rev chunks)).

(** The chunks from the last one that contains ED2 onwards (all of them when
    none does). *)
Fixpoint since_last_clear (chunks : list bytes) : list bytes :=
  match chunks with
  | [] => []
  | c :: rest =>
      if existsb (bytes_in ED2) rest then since_last_clear rest else c :: rest
  end.

End ReplayBuffer.

(** ** websocket/rate_limiter.py

    The limiter computes with Python [float]s (IEEE 754 binary64) and reads
    the event loop's monotonic clock.  The clock reading is passed in, and
    the arithmetic is kept abstract behind a small interface so that the one
    translation of [acquire] can be run both on binary64 (what the
    interpreter does) and on exact rationals (the arithmetic the algorithm
    is designed for). *)

Module RateLimiter.

Class Arith (R : Type) := {
  of_int : Z -> R;          (* an [int] operand used in float arithmetic *)
  add : R -> R -> R;
  sub : R -> R -> R;
  mul : R -> R -> R;
  lt : R -> R -> bool;      (* [x < y] *)
  ge : R -> R -> bool       (* [x >= y] *)
}.

#[export] Instance Arith_Q : Arith Q := {|
  of_int := inject_Z;
  add := Qplus;
  sub := Qminus;
  mul := Qmult;
  lt x y := negb (Qle_bool y x);
  ge x y := Qle_bool y x
|}.

(** Binary64, with [PrimFloat]'s operations.  [of_int] goes through
    [Uint63] and is the conversion of an [int] of magnitude below [2^63],
    exact up to [2^53]; it is not meant for larger operands (see
    [exact_int] below). *)
#[export] Instance Arith_binary64 : Arith PrimFloat.float := {|
  of_int z :=
    if z <? 0 then PrimFloat.opp (PrimFloat.of_uint63 (Uint63.of_Z (- z)))
    else PrimFloat.of_uint63 (Uint63.of_Z z);
  add := PrimFloat.add;
  sub := PrimFloat.sub;
  mul := PrimFloat.mul;
  lt := PrimFloat.ltb;
  ge x y := PrimFloat.leb y x
|}.

Definition DEFAULT_RATE : Z := 100.
Definition DEFAULT_BURST : Z := 500.

Section Limiter.
Context {R : Type} `{Arith R}.

Record RateLimiter := mkLimiter {
  rate : R;
  burst : Z;
  tokens : R;
  last_update : R
}.

(** [RateLimiter.__init__], [now] being the loop time at construction. *)
Definition init (rate : R) (burst : Z) (now : R) : RateLimiter :=
  mkLimiter rate burst (of_int burst) now.

(** Python's [min(a, b)]: [b] when [b < a], else [a]. *)
Definition py_min (a b : R) : R := if lt b a then b else a.

(** The refill step of [acquire]:
    [min(self.burst, self.tokens + elapsed * self.rate)]. *)
Definition refilled (now : R) (rl : RateLimiter) : R :=
  let elapsed := sub now (last_update rl) in
  py_min (of_int (burst rl)) (add (tokens rl) (mul elapsed (rate rl))).

(** [RateLimiter.acquire(n)] at loop time [now]. *)
Definition acquire (n : Z) (now : R) (rl : RateLimiter) : bool * RateLimiter :=
  let tokens := refilled now rl in
  if ge tokens (of_int n)
  then (true, mkLimiter (rate rl) (burst rl) (sub tokens (of_int n)) now)
  else (false, mkLimiter (rate rl) (burst rl) tokens now).

End Limiter.

Arguments RateLimiter R : clear implicits.

(** The limiter built by [handle_terminal_session]: [RateLimiter()]. *)
Definition default_limiter {R} `{Arith R} (now : R) : RateLimiter R :=
  init (of_int DEFAULT_RATE) DEFAULT_BURST now.

(** The three calls of the specification's example, the limiter being
    created at loop time [t0]: [acquire(500)] and at once [acquire(1)], both
    with the clock still reading [t0], and later, when the clock reads [t1],
    [acquire(100)]. *)
Definition example_run_at {R : Type} `{Arith R} (t0 t1 : R)
  : bool * bool * bool :=
  let rl0 := default_limiter t0 in
  let '(first, rl1) := acquire 500 t0 rl0 in
  let '(second, rl2) := acquire 1 t0 rl1 in
  let '(third, _) := acquire 100 t1 rl2 in
  (first, second, third).

(** The same with the third call at the clock value [t0 + 1]. *)
Definition example_run {R : Type} `{Arith R} (t0 : R) : bool * bool * bool :=
  let rl0 := default_limiter t0 in
  let '(first, rl1) := acquire 500 t0 rl0 in
  let '(second, rl2) := acquire 1 t0 rl1 in
  let '(third, _) := acquire 100 (add t0 (of_int 1)) rl2 in
  (first, second, third).

(** The [int] operands of the limiter ([burst], and the [n] of
    [acquire(n)]) meet floats in comparisons, where Python compares the two
    numbers exactly, and in arithmetic, where it converts the [int]; and
    [min] may leave the [int] [burst] itself in [tokens], from which the
    next [-=] subtracts in integers.  [of_int] converts in all these
    places.  For operands of magnitude at most [2^52] this changes nothing:
    binary64 represents them, and their sums and differences, exactly, and
    the [of_int] of [Arith_binary64] is the exact conversion. *)
Definition exact_int (z : Z) : bool := Z.abs z <=? 2 ^ 52.

End RateLimiter.

(** ** session.py: [SessionRegistry] *)

Module Registry.

(** Modelled from the spec: the [SecurePTYManager] class ([pty/manager.py])
    is not among the sources; the registry only calls its [is_alive()] and
    [close()].  Following the specification's data model, a manager owns one
    child process, its liveness is a flag that becomes false when the process
    has exited, and [close()] is idempotent and ends the process. *)
Record SecurePTYManager := mkPTY {
  pty_shell : option string;
  pty_cols : Z;
  pty_rows : Z;
  pty_alive : bool
}.

Definition is_alive (m : SecurePTYManager) : bool := pty_alive m.

Definition close (m : SecurePTYManager) : SecurePTYManager :=
  mkPTY (pty_shell m) (pty_cols m) (pty_rows m) false.

(** What a call returns: a value, or a raised exception (class and
    message). *)
Inductive result (A : Type) :=
| Ok (a : A)
| Raised (exc msg : string).
Arguments Ok {A} a.
Arguments Raised {A} exc msg.

(** The registry together with the objects it holds references to: the PTY
    managers (by handle), and a log of the [close] calls issued on sockets
    (socket handle and close code).  [factory_calls] records every
    invocation of the injected PTY factory. *)
Record World := mkWorld {
  _sessions : gmap string TerminalSession;
  _user_sessions : gmap string (gset string);
  ptys : gmap nat SecurePTYManager;
  factory_calls : list (option string * Z * Z);
  socket_closes : list (nat * Z)
}.

(** [PTYFactory = Callable[[str | None, int, int], SecurePTYManager]]: a
    factory allocates a manager in the store and returns its handle, or
    raises. *)
Definition PTYFactory : Type :=
  option string -> Z -> Z -> gmap nat SecurePTYManager ->
  result nat * gmap nat SecurePTYManager.

(** A factory that always spawns (the kind the tests inject). *)
Definition spawning_factory : PTYFactory :=
  fun shell cols rows heap =>
    let h := fresh (dom heap) in
    (Ok h, <[h := mkPTY shell cols rows true]> heap).

(** [SessionRegistry.__init__]: both dictionaries empty. *)
Definition empty_world : World := mkWorld ∅ ∅ ∅ [] [].

(** Close code of [websocket.close()] when none is given. *)
Definition WS_CLOSE_DEFAULT : Z := 1000.

(** Close code used when a newer connection takes a session over. *)
Definition WS_CLOSE_SUPERSEDED : Z := 4000.

(** [shell_id or "default"] *)
Definition shell_or_default (shell : option string) : string :=
  match shell with
  | Some s => if decide (s = "") then "default" else s
  | None => "default"
  end.

(** [self._user_sessions.get(user_id, set())] *)
Definition sessions_of (uid : string) (w : World) : gset string :=
  default ∅ (_user_sessions w !! uid).

(** [SessionRegistry.create_session].  [uuid] is the value of
    [str(uuid.uuid4())] and [now] the clock reading of the dataclass
    defaults. *)
Definition create_session (factory : PTYFactory) (uid : string)
  (shell : option string) (cols rows : Z) (uuid : string) (now : Z)
  (w : World) : result TerminalSession * World :=
  let user_sessions := sessions_of uid w in
  if Z.of_nat (size user_sessions) >=? MAX_SESSIONS_PER_USER then
    (Raised "ValueError" "Maximum sessions (10) reached for user", w)
  else if Z.of_nat (size (_sessions w)) >=? MAX_TOTAL_SESSIONS then
    (Raised "ValueError" "Server session limit reached", w)
  else
    let calls := factory_calls w ++ [(shell, cols, rows)] in
    match factory shell cols rows (ptys w) with
    | (Raised exc msg, heap) =>
        (Raised exc msg,
         mkWorld (_sessions w) (_user_sessions w) heap calls (socket_closes w))
    | (Ok pty, heap) =>
        let session := new_session uuid uid pty (shell_or_default shell) now in
        (Ok session,
         mkWorld (<[uuid := session]> (_sessions w))
                 (<[uid := sessions_of uid w ∪ {[uuid]}]> (_user_sessions w))
                 heap calls (socket_closes w))
    end.

(** [SessionRegistry.get_session] *)
Definition get_session (sid : string) (w : World) : option TerminalSession :=
  _sessions w !! sid.

(** [SessionRegistry.session_count] *)
Definition session_count (w : World) : Z := Z.of_nat (size (_sessions w)).

(** [session.pty_manager.is_alive()], through the handle. *)
Definition session_alive (s : TerminalSession) (w : World) : bool :=
  match ptys w !! pty_manager s with
  | Some m => is_alive m
  | None => false
  end.

(** [SessionRegistry.destroy_session] *)
Definition destroy_session (sid : string) (w : World) : World :=
  match _sessions w !! sid with
  | None => w
  | Some session =>
      let user_sessions := sessions_of (user_id session) w ∖ {[sid]} in
      let index :=
        if decide (user_sessions = ∅)
        then delete (user_id session) (_user_sessions w)
        else <[user_id session := user_sessions]> (_user_sessions w) in
      let closes :=
        match websocket session with
        | Some ws => socket_closes w ++ [(ws, WS_CLOSE_DEFAULT)]
        | None => socket_closes w
        end in
      mkWorld (delete sid (_sessions w)) index
              (alter close (pty_manager session) (ptys w))
              (factory_calls w) closes
  end.

(** [SessionRegistry.reconnect_session]; [None] is Python's [None]. *)
Definition reconnect_session (sid uid : string) (ws : nat) (now : Z)
  (w : World) : option TerminalSession * World :=
  match _sessions w !! sid with
  | None => (None, w)
  | Some session =>
      if negb (bool_decide (user_id session = uid)) then (None, w)
      else if negb (session_alive session w) then (None, destroy_session sid w)
      else
        let closes :=
          match websocket session with
          | Some old =>
              if is_connected session
              then socket_closes w ++ [(old, WS_CLOSE_SUPERSEDED)]
              else socket_closes w
          | None => socket_closes w
          end in
        let session' := touch now (set_connection session (Some ws) true) in
        (Some session',
         mkWorld (<[sid := session']> (_sessions w)) (_user_sessions w)
                 (ptys w) (factory_calls w) closes)
  end.

(** [SessionRegistry.disconnect_session] *)
Definition disconnect_session (sid : string) (now : Z) (w : World) : World :=
  match _sessions w !! sid with
  | None => w
  | Some session =>
      let session' := touch now (set_connection session None false) in
      mkWorld (<[sid := session']> (_sessions w)) (_user_sessions w)
              (ptys w) (factory_calls w) (socket_closes w)
  end.

(** The child process of a PTY exits (an event of the environment). *)
Definition process_exits (h : nat) (w : World) : World :=
  mkWorld (_sessions w) (_user_sessions w) (alter close h (ptys w))
          (factory_calls w) (socket_closes w).

(** *** Example worlds *)

(** One [create_session] per id, all for the same user, with the default
    geometry and shell. *)
Definition create_many (uid : string) (ids : list string) (w : World) : World :=
  fold_left
    (fun w id => snd (create_session spawning_factory uid None 120 30 id 0 w))
    ids w.

(** A registry in which ["alice"] holds ten sessions. *)
Definition world_at_user_limit : World :=
  create_many "alice"
    ["s0"; "s1"; "s2"; "s3"; "s4"; "s5"; "s6"; "s7"; "s8"; "s9"] empty_world.

(** A registry with one session of ["alice"], bound to socket 7. *)
Definition world_connected : World :=
  let w := create_many "alice" ["s0"] empty_world in
  snd (reconnect_session "s0" "alice" 7 1 w).

(** The same registry after the shell of ["s0"] has exited. *)
Definition world_pty_dead : World := process_exits 0 world_connected.

(** The session ["s0"] as it stands in [world_connected]. *)
Definition session_s0 : TerminalSession :=
  touch 1 (set_connection (new_session "s0" "alice" 0 "default" 0)
                          (Some 7%nat) true).

End Registry.

(** ** websocket/buffer.py: [OutputBuffer]

    Time is counted in milliseconds.  The delayed-flush task created by
    [write] sleeps for the flush interval and then runs; it is represented
    by the time at which it wakes up, the event loop running it through
    [timer_fires].  [sent] is the sequence of frames handed to
    [websocket.send_bytes]. *)

Module OutputBuffer.

Definition DEFAULT_FLUSH_INTERVAL_MS : Z := 8.

(** Chunks of at most this many bytes trigger an immediate flush. *)
Definition IMMEDIATE_MAX : Z := 64.

(** An [asyncio.Task] running [_delayed_flush]. *)
Inductive Task :=
| Sleeping (wake_at : Z)
| Cancelled.

Record OutputBuffer := mkOutputBuffer {
  buffer : list bytes;
  flush_interval : Z;
  _flush_task : option Task;
  _closed : bool;
  sent : list bytes
}.

(** [OutputBuffer.__init__] *)
Definition init (flush_interval_ms : Z) : OutputBuffer :=
  mkOutputBuffer [] flush_interval_ms None false [].

(** The common tail of [flush] and [_delayed_flush]:
<<
    if self.buffer and not self._closed:
        combined = b"".join(self.buffer)
        self.buffer.clear()
        await self.websocket.send_bytes(combined)
>>
    The task reference left in [_flush_task] is given by the caller. *)
Definition send_combined (task : option Task) (ob : OutputBuffer)
  : OutputBuffer :=
  match buffer ob with
  | [] => mkOutputBuffer [] (flush_interval ob) task (_closed ob) (sent ob)
  | _ :: _ =>
      if _closed ob
      then mkOutputBuffer (buffer ob) (flush_interval ob) task (_closed ob)
                          (sent ob)
      else mkOutputBuffer [] (flush_interval ob) task (_closed ob)
                          (sent ob ++ [join (buffer ob)])
  end.

(** [OutputBuffer.flush]: a pending task is cancelled and forgotten, then
    the queue is sent. *)
Definition flush (ob : OutputBuffer) : OutputBuffer :=
  send_combined None ob.

(** [OutputBuffer.write] at time [now]. *)
Definition write (data : bytes) (now : Z) (ob : OutputBuffer) : OutputBuffer :=
  if _closed ob then ob
  else
    let ob1 := mkOutputBuffer (buffer ob ++ [data]) (flush_interval ob)
                              (_flush_task ob) (_closed ob) (sent ob) in
    if len data <=? IMMEDIATE_MAX then flush ob1
    else
      match _flush_task ob1 with
      | None =>
          mkOutputBuffer (buffer ob1) (flush_interval ob1)
                         (Some (Sleeping (now + flush_interval ob1)))
                         (_closed ob1) (sent ob1)
      | Some _ => ob1
      end.

(** [OutputBuffer._delayed_flush], from the moment its sleep is over: send
    the queue, then [self._flush_task = None]. *)
Definition _delayed_flush (ob : OutputBuffer) : OutputBuffer :=
  send_combined None ob.

(** The event loop at time [now]: a sleeping [_delayed_flush] whose delay has
    elapsed is resumed and runs to completion; a cancelled task never
    runs. *)
Definition timer_fires (now : Z) (ob : OutputBuffer) : OutputBuffer :=
  match _flush_task ob with
  | Some (Sleeping wake_at) =>
      if wake_at <=? now then _delayed_flush ob else ob
  | _ => ob
  end.

(** [OutputBuffer.close]: the task is cancelled but stays referenced. *)
Definition close (ob : OutputBuffer) : OutputBuffer :=
  mkOutputBuffer (buffer ob) (flush_interval ob)
                 (match _flush_task ob with
                  | Some _ => Some Cancelled
                  | None => None
                  end)
                 true (sent ob).

End OutputBuffer.

(** ** pty/fake.py: [FakePTYBackend] *)

Module FakePTY.

Record FakePTYBackend := mkFake {
  _input_buffer : bytes;
  _output_queue : list bytes;
  _alive : bool;
  _rows : Z;
  _cols : Z;
  _spawn_count : Z;
  _resize_count : Z
}.

(** [FakePTYBackend.__init__] *)
Definition init : FakePTYBackend := mkFake [] [] false 30 120 0 0.

Definition set_queue (q : list bytes) (b : FakePTYBackend) : FakePTYBackend :=
  mkFake (_input_buffer b) q (_alive b) (_rows b) (_cols b)
         (_spawn_count b) (_resize_count b).

Definition set_alive (a : bool) (b : FakePTYBackend) : FakePTYBackend :=
  mkFake (_input_buffer b) (_output_queue b) a (_rows b) (_cols b)
         (_spawn_count b) (_resize_count b).

(** [FakePTYBackend.spawn]; [None] stands for the [RuntimeError] raised on
    a backend that is already alive. *)
Definition spawn (rows cols : Z) (b : FakePTYBackend) : option FakePTYBackend :=
  if _alive b then None
  else Some (mkFake (_input_buffer b) (_output_queue b) true rows cols
                    (_spawn_count b + 1) (_resize_count b)).

(** [FakePTYBackend.read] *)
Definition read (size : Z) (b : FakePTYBackend) : bytes * FakePTYBackend :=
  if negb (_alive b) then ([], b)
  else
    match _output_queue b with
    | [] => ([], b)
    | data :: rest =>
        if len data >? size
        then (slice_to size data, set_queue (slice_from size data :: rest) b)
        else (data, set_queue rest b)
    end.

(** [FakePTYBackend.write] *)
Definition write (data : bytes) (b : FakePTYBackend) : FakePTYBackend :=
  if negb (_alive b) then b
  else mkFake (_input_buffer b ++ data) (_output_queue b) (_alive b)
              (_rows b) (_cols b) (_spawn_count b) (_resize_count b).

(** [FakePTYBackend.is_alive] *)
Definition is_alive (b : FakePTYBackend) : bool := _alive b.

(** [FakePTYBackend.close] and [FakePTYBackend.kill] *)
Definition close (b : FakePTYBackend) : FakePTYBackend := set_alive false b.
Definition kill (b : FakePTYBackend) : FakePTYBackend := set_alive false b.

(** [FakePTYBackend.inject_output] *)
Definition inject_output (data : bytes) (b : FakePTYBackend) : FakePTYBackend :=
  set_queue (_output_queue b ++ [data]) b.

(** A test driving the backend: injections and reads in any order. *)
Inductive op :=
| Inject (data : bytes)
| Read (size : Z).

(** Runs the operations in order; returns what the reads returned, in
    order, the chunks injected, in order, and the final backend. *)
Fixpoint run (ops : list op) (b : FakePTYBackend)
  : list bytes * list bytes * FakePTYBackend :=
  match ops with
  | [] => ([], [], b)
  | Inject data :: ops' =>
      let '(reads, injected, b') := run ops' (inject_output data b) in
      (reads, data :: injected, b')
  | Read size :: ops' =>
      let '(data, b1) := read size b in
      let '(reads, injected, b') := run ops' b1 in
      (data :: reads, injected, b')
  end.

(** [n] successive [read(size)] calls. *)
Fixpoint read_n (n : nat) (size : Z) (b : FakePTYBackend)
  : list bytes * FakePTYBackend :=
  match n with
  | O => ([], b)
  | S n' =>
      let '(data, b1) := read size b in
      let '(reads, b') := read_n n' size b1 in
      (data :: reads, b')
  end.

(** A spawned backend into which ["hello"] has been injected. *)
Definition example_backend : FakePTYBackend :=
  inject_output [x68; x65; x6c; x6c; x6f]
    (default init (spawn 30 120 init)).

End FakePTY.

(** ** websocket/handler.py and websocket/handlers.py: terminal input

    A handler acts on the socket ([send_json]), on the session's PTY
    ([write]) and on the session ([touch]); these actions are returned in
    order as a trace.  The only state a handler itself carries from one
    message to the next is the connection's rate limiter. *)

Module InputPath.
Import RateLimiter.

Definition MAX_INPUT_SIZE : Z := 4096.

Inductive effect :=
| SendJson (type message : string)
| PtyWrite (data : bytes)
| Touch
| Raise (exc : string).

(** A Python [str]: its code points. *)
Abbreviation text := (list Z).

Definition byte_of_Z (z : Z) : byte :=
  match Byte.of_N (Z.to_N z) with
  | Some b => b
  | None => x00
  end.

(** UTF-8 encoding of one code point; [None] for a surrogate (or a value
    that is no code point), on which [str.encode] raises. *)
Definition utf8_encode_cp (c : Z) : option bytes :=
  if c <? 0 then None
  else if c <? 128 then Some [byte_of_Z c]
  else if c <? 2048 then
    Some [byte_of_Z (192 + c / 64); byte_of_Z (128 + c mod 64)]
  else if (55296 <=? c) && (c <=? 57343) then None
  else if c <? 65536 then
    Some [byte_of_Z (224 + c / 4096); byte_of_Z (128 + (c / 64) mod 64);
          byte_of_Z (128 + c mod 64)]
  else if c <? 1114112 then
    Some [byte_of_Z (240 + c / 262144); byte_of_Z (128 + (c / 4096) mod 64);
          byte_of_Z (128 + (c / 64) mod 64); byte_of_Z (128 + c mod 64)]
  else None.

(** [data.encode("utf-8")] *)
Fixpoint utf8_encode (data : text) : option bytes :=
  match data with
  | [] => Some []
  | c :: rest =>
      match utf8_encode_cp c, utf8_encode rest with
      | Some b, Some bs => Some (b ++ bs)
      | _, _ => None
      end
  end.

Section Handlers.
Context {R : Type} `{Arith R}.

Record MessageContext := mkContext {
  rate_limiter : RateLimiter R;
  max_input_size : Z;
  log_raw_input : bool
}.

Definition with_limiter (rl : RateLimiter R) (ctx : MessageContext)
  : MessageContext :=
  mkContext rl (max_input_size ctx) (log_raw_input ctx).

(** The context built by [handle_terminal_session] at loop time [now]. *)
Definition new_context (now : R) : MessageContext :=
  mkContext (default_limiter now) MAX_INPUT_SIZE false.

(** [_handle_binary_input] (handler.py), for a binary frame received at
    loop time [now]. *)
Definition _handle_binary_input (input_bytes : bytes) (now : R)
  (ctx : MessageContext) : list effect * MessageContext :=
  if len input_bytes >? max_input_size ctx then
    ([SendJson "error" "Input too large"], ctx)
  else
    let '(ok, rl) := acquire (len input_bytes) now (rate_limiter ctx) in
    if ok then ([PtyWrite input_bytes; Touch], with_limiter rl ctx)
    else ([SendJson "error" "Rate limit exceeded"], with_limiter rl ctx).

(** [handle_input] (handlers.py), the handler registered for messages of
    type ["input"]; [msg] is the parsed JSON object, here with text
    values. *)
Definition handle_input (msg : gmap string text) (now : R)
  (ctx : MessageContext) : list effect * MessageContext :=
  let data := default [] (msg !! "data") in
  if Z.of_nat (length data) >? max_input_size ctx then
    ([SendJson "error" "Input too large"], ctx)
  else
    match data with
    | [] => ([], ctx)
    | _ :: _ =>
        match utf8_encode data with
        | None => ([Raise "UnicodeEncodeError"], ctx)
        | Some input_bytes =>
            let '(ok, rl) := acquire (len input_bytes) now (rate_limiter ctx) in
            if ok then ([PtyWrite input_bytes; Touch], with_limiter rl ctx)
            else ([], with_limiter rl ctx)
        end
    end.

End Handlers.

Arguments MessageContext R : clear implicits.

(** What reaches the client, and what reaches the PTY, in a trace. *)
Definition sent_to_client (tr : list effect) : list (string * string) :=
  flat_map (fun e => match e with SendJson t m => [(t, m)] | _ => [] end) tr.

Definition written_to_pty (tr : list effect) : list bytes :=
  flat_map (fun e => match e with PtyWrite d => [d] | _ => [] end) tr.

Definition raises (tr : list effect) : bool :=
  existsb (fun e => match e with Raise _ => true | _ => false end) tr.

(** The context of a connection opened at loop time 0, after a binary frame
    of 500 bytes received at once has used up the initial burst. *)
Definition exhausted_context {R : Type} `{Arith R} : MessageContext R :=
  snd (_handle_binary_input (repeat x61 500) (of_int 0)
         (new_context (of_int 0))).

(** The JSON message [{"type": "input", "data": "a"}]. *)
Definition input_message_a : gmap string text :=
  {[ "type" := [105; 110; 112; 117; 116]; "data" := [97] ]}.

End InputPath.

(** ** session.py: the rest of [SessionRegistry] *)

Module RegistryRuns.
Import Registry.

Definition RECONNECT_WINDOW_SECONDS : Z := 0.
Definition SESSION_MAX_DURATION_SECONDS : Z := 0.

(** [(later - earlier).total_seconds() > limit], timestamps counting
    microseconds, the resolution of [datetime]. *)
Definition seconds_exceed (later earlier limit : Z) : bool :=
  later - earlier >? limit * 1000000.

(** The body of the loop of [_cleanup_stale_sessions], for one
    [(session_id, session)] item, [now] being the time read before the
    loop. *)
Definition cleanup_step (now : Z) (w : World)
  (item : string * TerminalSession) : World :=
  let '(sid, session) := item in
  if negb (session_alive session w) then destroy_session sid w
  else if (SESSION_MAX_DURATION_SECONDS >? 0)
          && seconds_exceed now (created_at session)
                            SESSION_MAX_DURATION_SECONDS
  then destroy_session sid w
  else if (RECONNECT_WINDOW_SECONDS >? 0)
          && negb (is_connected session)
          && seconds_exceed now (last_activity session)
                            RECONNECT_WINDOW_SECONDS
  then destroy_session sid w
  else w.

(** [SessionRegistry._cleanup_stale_sessions].  [items] is
    [list(self._sessions.items())]: the items of the dictionary, in the
    dictionary's own order. *)
Definition _cleanup_stale_sessions (now : Z)
  (items : list (string * TerminalSession)) (w : World) : World :=
  fold_left (cleanup_step now) items w.

(** The part of [SessionRegistry.stop] that closes all sessions; [keys] is
    [list(self._sessions.keys())]. *)
Definition stop (keys : list string) (w : World) : World :=
  fold_left (fun w sid => destroy_session sid w) keys w.

(** [SessionRegistry.get_user_sessions]; the order is that of iterating the
    set. *)
Definition get_user_sessions (uid : string) (w : World)
  : list TerminalSession :=
  omap (fun sid => _sessions w !! sid) (elements (sessions_of uid w)).

(** What can happen to a registry: calls of its methods, and the exit of a
    child process. *)
Inductive call :=
| CreateSession (uid : string) (shell : option string) (cols rows : Z)
                (uuid : string) (now : Z)
| ReconnectSession (sid uid : string) (ws : nat) (now : Z)
| DisconnectSession (sid : string) (now : Z)
| DestroySession (sid : string)
| CleanupStaleSessions (now : Z) (items : list (string * TerminalSession))
| Stop (keys : list string)
| ProcessExits (h : nat).

Definition step (factory : PTYFactory) (w : World) (c : call) : World :=
  match c with
  | CreateSession uid shell cols rows uuid now =>
      snd (create_session factory uid shell cols rows uuid now w)
  | ReconnectSession sid uid ws now =>
      snd (reconnect_session sid uid ws now w)
  | DisconnectSession sid now => disconnect_session sid now w
  | DestroySession sid => destroy_session sid w
  | CleanupStaleSessions now items => _cleanup_stale_sessions now items w
  | Stop keys => stop keys w
  | ProcessExits h => process_exits h w
  end.

Definition run (factory : PTYFactory) (calls : list call) (w : World) : World :=
  fold_left (step factory) calls w.

(** What the environment guarantees along a run: a generated session id is
    not among the ids in use. *)
Fixpoint ids_fresh (factory : PTYFactory) (calls : list call) (w : World)
  : Prop :=
  match calls with
  | [] => True
  | c :: rest =>
      match c with
      | CreateSession _ _ _ _ uuid _ => _sessions w !! uuid = None
      | _ => True
      end
      /\ ids_fresh factory rest (step factory w c)
  end.

(** The two dictionaries agree: a session is filed under its own id and
    listed under its user; a user's entry is not empty and lists only ids of
    sessions of that user. *)
Definition consistent (w : World) : Prop :=
  (forall sid s, _sessions w !! sid = Some s ->
     session_id s = sid /\ sid ∈ sessions_of (user_id s) w)
  /\ (forall uid ids, _user_sessions w !! uid = Some ids ->
        ids ≠ ∅
        /\ forall sid, sid ∈ ids ->
             exists s, _sessions w !! sid = Some s /\ user_id s = uid).

Definition within_limits (w : World) : Prop :=
  (forall uid, Z.of_nat (size (sessions_of uid w)) <= MAX_SESSIONS_PER_USER)
  /\ Z.of_nat (size (_sessions w)) <= MAX_TOTAL_SESSIONS.

(** A short life: a session is created, its user reconnects, the shell
    exits, the sweep runs. *)
Definition example_calls : list call :=
  [CreateSession "alice" None 120 30 "s0" 0;
   ReconnectSession "s0" "alice" 7 1;
   ProcessExits 0;
   CleanupStaleSessions 2 [("s0", session_s0)]].

End RegistryRuns.

(** ** websocket/handlers.py: the message registry *)

Module Dispatch.
Import RateLimiter InputPath.

(** A [str] literal of the source as text: the code points of its
    characters. *)
Definition str (s : string) : text :=
  map (fun a => Z.of_N (Ascii.N_of_ascii a)) (String.list_ascii_of_string s).

Section Registry.
Context {R : Type} `{Arith R}.

(** A message handler, called with the context and the JSON message; as
    for [handle_input], the loop time is passed in, and the context comes
    first in the source. *)
Definition MessageHandler : Type :=
  gmap string text -> R -> MessageContext R -> list effect * MessageContext R.

(** [handle_pong] *)
Definition handle_pong : MessageHandler :=
  fun _ _ ctx => ([Touch], ctx).

(** [MessageRegistry.register(msg_type)], applied to a handler. *)
Definition register (msg_type : string) (handler : MessageHandler)
  (_handlers : gmap text MessageHandler) : gmap text MessageHandler :=
  <[str msg_type := handler]> _handlers.

(** [message_registry._handlers] once the module is loaded: the decorators
    have registered ["resize"], ["pong"] and ["input"], in that order.
    [handle_resize] acts on the PTY manager, whose code is not part of this
    development; it is left as a parameter. *)
Definition message_registry (handle_resize : MessageHandler)
  : gmap text MessageHandler :=
  register "input" handle_input
    (register "pong" handle_pong
       (register "resize" handle_resize ∅)).

(** [MessageRegistry.dispatch]:
<<
    msg_type = msg.get("type")
    handler = self._handlers.get(msg_type)
    if handler:
        await handler(ctx, msg)
    else:
        logger.warning(...)
>>
    An exception raised by the handler is not caught here. *)
Definition dispatch (_handlers : gmap text MessageHandler)
  (msg : gmap string text) (now : R) (ctx : MessageContext R)
  : list effect * MessageContext R :=
  match msg !! "type" with
  | Some msg_type =>
      match _handlers !! msg_type with
      | Some handler => handler msg now ctx
      | None => ([], ctx)
      end
  | None => ([], ctx)
  end.

End Registry.

End Dispatch.

(** ** websocket/buffer.py: sequences of operations on one buffer *)

Module OutputBufferRuns.
Import OutputBuffer.

(** What happens to an output buffer: the three methods, and the event loop
    reaching a time at which it resumes a due [_delayed_flush]. *)
Inductive event :=
| Write (data : bytes) (now : Z)
| Flush
| TimerFires (now : Z)
| Close.

Definition apply_event (ob : OutputBuffer) (e : event) : OutputBuffer :=
  match e with
  | Write data now => write data now ob
  | Flush => flush ob
  | TimerFires now => timer_fires now ob
  | Close => close ob
  end.

Definition run (events : list event) (ob : OutputBuffer) : OutputBuffer :=
  fold_left apply_event events ob.

(** The chunks passed to [write], in order. *)
Definition written (events : list event) : list bytes :=
  flat_map (fun e => match e with Write data _ => [data] | _ => [] end) events.

Definition is_close (e : event) : bool :=
  match e with Close => true | _ => false end.

End OutputBufferRuns.

(** ** websocket/buffer.py: [_delayed_flush] while it sends

    [timer_fires] runs the body of [_delayed_flush] in one step.  The body
    awaits [websocket.send_bytes] between [self.buffer.clear()] and
    [self._flush_task = None], and while it waits there the event loop may
    run other tasks, the PTY reader and its [write] among them.  Here the
    body is cut at that await. *)

Module OutputBufferSend.
Import OutputBuffer.

(** [_delayed_flush] from the end of its sleep to the call of
    [send_bytes]; the flag tells whether a frame was handed to the socket.
    When one was, the task is not finished and [_flush_task] still holds
    it; when none was, the body has run to its end. *)
Definition send_begins (ob : OutputBuffer) : OutputBuffer * bool :=
  match buffer ob with
  | [] => (mkOutputBuffer [] (flush_interval ob) None (_closed ob) (sent ob),
           false)
  | _ :: _ =>
      if _closed ob
      then (mkOutputBuffer (buffer ob) (flush_interval ob) None (_closed ob)
                           (sent ob), false)
      else (mkOutputBuffer [] (flush_interval ob) (_flush_task ob) (_closed ob)
                           (sent ob ++ [join (buffer ob)]), true)
  end.

(** The rest of [_delayed_flush], once [send_bytes] has returned:
    [self._flush_task = None]. *)
Definition send_returns (ob : OutputBuffer) : OutputBuffer :=
  mkOutputBuffer (buffer ob) (flush_interval ob) None (_closed ob) (sent ob).

(** The body with [during] run by the event loop while the send is in
    flight. *)
Definition delayed_flush_with (during : OutputBuffer -> OutputBuffer)
  (ob : OutputBuffer) : OutputBuffer :=
  let '(ob1, sending) := send_begins ob in
  if sending then send_returns (during ob1) else ob1.

End OutputBufferSend.

(** ** pty/fake.py: the input side of [FakePTYBackend] *)

Module FakePTYIO.
Import FakePTY.

(** [FakePTYBackend.get_input]: returns what was written and forgets it. *)
Definition get_input (b : FakePTYBackend) : bytes * FakePTYBackend :=
  (_input_buffer b,
   mkFake [] (_output_queue b) (_alive b) (_rows b) (_cols b)
          (_spawn_count b) (_resize_count b)).

(** [FakePTYBackend.resize] *)
Definition resize (rows cols : Z) (b : FakePTYBackend) : FakePTYBackend :=
  mkFake (_input_buffer b) (_output_queue b) (_alive b) rows cols
         (_spawn_count b) (_resize_count b + 1).

(** A sequence of [write] calls. *)
Definition writes (datas : list bytes) (b : FakePTYBackend) : FakePTYBackend :=
  fold_left (fun b data => write data b) datas b.

End FakePTYIO.

(** ** app.py: the websocket endpoint, up to the hand-over to the session
    handler *)

Module App.
Import Registry.

(** Close codes used by [websocket_terminal]. *)
Definition WS_CLOSE_NOT_FOUND : Z := 4004.
Definition WS_CLOSE_SESSION_LIMIT : Z := 4005.
Definition WS_CLOSE_INTERNAL_ERROR : Z := 1011.

(** What the endpoint does with the new socket before
    [handle_terminal_session] takes over: the JSON error messages sent
    (type and message), the code the socket is closed with, if it is, and
    the session handed over to the handler, if any. *)
Record reply := mkReply {
  frames : list (string * string);
  close_code : option Z;
  handed_over : option TerminalSession
}.

Definition log_close (ws : nat) (code : Z) (w : World) : World :=
  mkWorld (_sessions w) (_user_sessions w) (ptys w) (factory_calls w)
          (socket_closes w ++ [(ws, code)]).

(** The two assignments [session.websocket = websocket] and
    [session.is_connected = True] made after [create_session]: the session
    object is the one held by the registry, which sees them too. *)
Definition bind_created (s : TerminalSession) (ws : nat) (w : World)
  : TerminalSession * World :=
  let s' := set_connection s (Some ws) true in
  (s', mkWorld (<[session_id s := s']> (_sessions w)) (_user_sessions w)
               (ptys w) (factory_calls w) (socket_closes w)).

(** The decision part of [websocket_terminal].  [session_id] and [shell]
    are the query parameters, [user_header] the
    [cf-access-authenticated-user-email] header, [cols] and [rows] come from
    the configuration. *)
Definition websocket_terminal (factory : PTYFactory) (cols rows : Z)
  (session_id shell user_header : option string) (ws : nat)
  (uuid : string) (now : Z) (w : World) : reply * World :=
  let user_id := default "local-user" user_header in
  let reconnecting :=
    match session_id with
    | Some sid => if decide (sid = "") then None else Some sid
    | None => None
    end in
  match reconnecting with
  | Some sid =>
      match reconnect_session sid user_id ws now w with
      | (None, w') =>
          (mkReply [("error", "Session not found or unauthorized")]
                   (Some WS_CLOSE_NOT_FOUND) None,
           log_close ws WS_CLOSE_NOT_FOUND w')
      | (Some session, w') => (mkReply [] None (Some session), w')
      end
  | None =>
      match create_session factory user_id shell cols rows uuid now w with
      | (Ok session, w') =>
          let '(session', w'') := bind_created session ws w' in
          (mkReply [] None (Some session'), w'')
      | (Raised exc msg, w') =>
          if decide (exc = "ValueError")
          then (mkReply [("error", msg)] (Some WS_CLOSE_SESSION_LIMIT) None,
                log_close ws WS_CLOSE_SESSION_LIMIT w')
          else (mkReply [] (Some WS_CLOSE_INTERNAL_ERROR) None,
                log_close ws WS_CLOSE_INTERNAL_ERROR w')
      end
  end.

End App.

(** ** websocket/handler.py: the PTY-to-socket pump *)

Module Pump.
Import ReplayBuffer OutputBuffer.

(** What happens while [read_pty_output] runs: an iteration of its loop, in
    which [session.pty_manager.is_alive()] answers [alive] and, if so,
    [read(4096)] returns [data]; or, during the pump's sleep, the event loop
    reaching a time at which it resumes a due delayed flush. *)
Inductive pump_event :=
| Iteration (alive : bool) (data : bytes) (now : Z)
| Wakeup (now : Z).

(** One iteration of the loop of [read_pty_output]; once the session is no
    longer connected the loop is over and nothing happens. *)
Definition read_pty_output_step (alive : bool) (data : bytes) (now : Z)
  (st : TerminalSession * OutputBuffer) : TerminalSession * OutputBuffer :=
  let '(s, ob) := st in
  if is_connected s then
    if alive then
      match data with
      | [] => st
      | _ :: _ => (touch now (add_to_buffer data s), write data now ob)
      end
    else st
  else st.

Definition pump_step (st : TerminalSession * OutputBuffer) (e : pump_event)
  : TerminalSession * OutputBuffer :=
  match e with
  | Iteration alive data now => read_pty_output_step alive data now st
  | Wakeup now => (fst st, timer_fires now (snd st))
  end.

Definition pump (events : list pump_event)
  (st : TerminalSession * OutputBuffer) : TerminalSession * OutputBuffer :=
  fold_left pump_step events st.

(** The chunks the PTY produced, in order: the non-empty reads made while
    it was alive. *)
Definition produced (events : list pump_event) : list bytes :=
  flat_map (fun e => match e with
                     | Iteration true (c :: data) _ => [c :: data]
                     | _ => []
                     end) events.

End Pump.

(** * Properties *)

(** ** Byte strings and chunk lists *)

Lemma len_nonneg (data : bytes) : 0 <= len data.
Proof. unfold len. lia. Qed.

Lemma len_app (a b : bytes) : len (a ++ b) = len a + len b.
Proof. unfold len. rewrite length_app. lia. Qed.

Lemma total_app (a b : list bytes) : total (a ++ b) = total a + total b.
Proof.
  induction a as [|c a IH]; simpl; [reflexivity|].
  rewrite IH. lia.
Qed.

Lemma total_rev (l : list bytes) : total (rev l) = total l.
Proof.
  induction l as [|c l IH]; simpl; [reflexivity|].
  rewrite total_app, IH. simpl. lia.
Qed.

Lemma total_nonneg (l : list bytes) : 0 <= total l.
Proof.
  induction l as [|c l IH]; simpl; [lia|].
  pose proof (len_nonneg c). lia.
Qed.

Lemma len_join (l : list bytes) : len (join l) = total l.
Proof.
  induction l as [|c l IH]; simpl; [reflexivity|].
  unfold join in *. simpl. rewrite len_app, IH. reflexivity.
Qed.

Lemma slice_split (k : Z) (data : bytes) :
  slice_to k data ++ slice_from k data = data.
Proof. unfold slice_to, slice_from. apply firstn_skipn. Qed.

Lemma slice_to_len (k : Z) (data : bytes) :
  0 <= k -> len (slice_to k data) <= k.
Proof.
  intros Hk. unfold slice_to, slice_bound, len.
  rewrite length_firstn.
  destruct (Z.ltb_spec k 0); lia.
Qed.

(** ** Replay buffer *)

Section ReplayBufferFacts.
Import ReplayBuffer.
Variable cap : Z.
Hypothesis cap_nonneg : 0 <= cap.

Lemma take_recent_all (l : list bytes) (c : Z) :
  total l <= c -> take_recent c l = l.
Proof.
  revert c. induction l as [|x l IH]; intros c Hc; simpl in *; [reflexivity|].
  pose proof (total_nonneg l).
  destruct (Z.leb_spec (len x) c); [|lia].
  rewrite IH by lia. reflexivity.
Qed.

Lemma take_recent_snoc_over (l : list bytes) (x : bytes) (c : Z) :
  c < total l + len x -> take_recent c (l ++ [x]) = take_recent c l.
Proof.
  revert c. induction l as [|y l IH]; intros c Hc; simpl in *.
  - destruct (Z.leb_spec (len x) c); [lia|reflexivity].
  - destruct (Z.leb_spec (len y) c); [|reflexivity].
    rewrite IH by lia. reflexivity.
Qed.

Lemma take_recent_bound (l : list bytes) (c : Z) :
  0 <= c -> total (take_recent c l) <= c.
Proof.
  revert c. induction l as [|x l IH]; intros c Hc; simpl; [lia|].
  destruct (Z.leb_spec (len x) c); simpl; [|lia].
  specialize (IH (c - len x)). lia.
Qed.

Lemma take_recent_shrink (l : list bytes) (c c' : Z) :
  c' <= c -> take_recent c' (take_recent c l) = take_recent c' l.
Proof.
  revert c c'. induction l as [|x l IH]; intros c c' Hc; simpl; [reflexivity|].
  destruct (Z.leb_spec (len x) c) as [Hx|Hx]; simpl.
  - destruct (Z.leb_spec (len x) c'); [|reflexivity].
    rewrite (IH (c - len x) (c' - len x)) by lia. reflexivity.
  - destruct (Z.leb_spec (len x) c'); [lia|reflexivity].
Qed.

Lemma most_recent_fitting_bound (l : list bytes) :
  total (most_recent_fitting cap l) <= cap.
Proof.
  unfold most_recent_fitting. rewrite total_rev.
  apply take_recent_bound, cap_nonneg.
Qed.

Lemma most_recent_fitting_snoc (l : list bytes) (x : bytes) :
  most_recent_fitting cap (most_recent_fitting cap l ++ [x])
  = most_recent_fitting cap (l ++ [x]).
Proof.
  unfold most_recent_fitting.
  rewrite !rev_app_distr, rev_involutive. simpl.
  destruct (Z.leb_spec (len x) cap); [|reflexivity].
  pose proof (len_nonneg x).
  rewrite take_recent_shrink by lia. reflexivity.
Qed.

(** The trimming loop, run on a deque whose running size is exact, leaves
    the most recent chunks that fit. *)
Lemma trim_most_recent (buf : list bytes) :
  trim cap buf (total buf)
  = (most_recent_fitting cap buf, total (most_recent_fitting cap buf)).
Proof.
  induction buf as [|x buf IH]; simpl; [reflexivity|].
  destruct (Z.gtb_spec (len x + total buf) cap) as [Hgt|Hle].
  - replace (len x + total buf - len x) with (total buf) by lia.
    rewrite IH. unfold most_recent_fitting. simpl.
    rewrite take_recent_snoc_over by (rewrite total_rev; lia).
    reflexivity.
  - unfold most_recent_fitting.
    rewrite take_recent_all by (rewrite total_rev; simpl; lia).
    rewrite rev_involutive. reflexivity.
Qed.

Lemma since_last_clear_snoc (h : list bytes) (x : bytes) :
  since_last_clear (h ++ [x])
  = if bytes_in ED2 x then [x] else since_last_clear h ++ [x].
Proof.
  induction h as [|y h IH]; simpl.
  - destruct (bytes_in ED2 x); reflexivity.
  - rewrite existsb_app. simpl. rewrite orb_false_r, IH.
    destruct (bytes_in ED2 x).
    + rewrite orb_true_r. reflexivity.
    + rewrite orb_false_r. destruct (existsb (bytes_in ED2) h); reflexivity.
Qed.

Lemma since_last_clear_none (chunks : list bytes) :
  existsb (bytes_in ED2) chunks = false -> since_last_clear chunks = chunks.
Proof.
  destruct chunks as [|x l]; simpl; [reflexivity|].
  intros [_ Hl]%orb_false_elim. rewrite Hl. reflexivity.
Qed.

Lemma add_to_buffer_cap_fields (data : bytes) (s : TerminalSession) :
  let s' := add_to_buffer_cap cap data s in
  session_id s' = session_id s /\ user_id s' = user_id s /\
  pty_manager s' = pty_manager s /\ websocket s' = websocket s /\
  is_connected s' = is_connected s.
Proof.
  unfold add_to_buffer_cap.
  destruct (bytes_in ED2 data);
    match goal with |- context [trim ?c ?b ?z] => destruct (trim c b z) end;
    simpl; auto.
Qed.

(** One [add_to_buffer] on a buffer that holds the most recent fitting
    chunks of a history [h], with an exact running size. *)
Lemma add_to_buffer_cap_step (h : list bytes) (data : bytes)
  (s : TerminalSession) :
  output_buffer s = most_recent_fitting cap (since_last_clear h) ->
  output_buffer_size s = total (output_buffer s) ->
  let s' := add_to_buffer_cap cap data s in
  output_buffer s' = most_recent_fitting cap (since_last_clear (h ++ [data]))
  /\ output_buffer_size s' = total (output_buffer s').
Proof.
  intros Hbuf Hsize. unfold add_to_buffer_cap.
  rewrite since_last_clear_snoc.
  destruct (bytes_in ED2 data).
  - replace (0 + len data) with (total ([] ++ [data])) by (simpl; lia).
    rewrite trim_most_recent. simpl. split; reflexivity.
  - rewrite Hsize.
    replace (total (output_buffer s) + len data)
      with (total (output_buffer s ++ [data]))
      by (rewrite total_app; simpl; lia).
    rewrite trim_most_recent. simpl.
    rewrite Hbuf, most_recent_fitting_snoc. split; reflexivity.
Qed.

Lemma appends_cap_invariant (chunks : list bytes) (s0 : TerminalSession) :
  output_buffer s0 = [] ->
  output_buffer_size s0 = 0 ->
  let s := appends_cap cap chunks s0 in
  output_buffer s = most_recent_fitting cap (since_last_clear chunks)
  /\ output_buffer_size s = total (output_buffer s).
Proof.
  intros Hbuf Hsize.
  induction chunks as [|x h IH] using rev_ind; simpl.
  - rewrite Hbuf, Hsize. split; reflexivity.
  - unfold appends_cap in *. rewrite fold_left_app. simpl.
    destruct IH as [IH1 IH2].
    apply add_to_buffer_cap_step; assumption.
Qed.

Lemma take_recent_total_le (l : list bytes) (c : Z) :
  total (take_recent c l) <= total l.
Proof.
  revert c. induction l as [|x l IH]; intros c; simpl; [lia|].
  pose proof (total_nonneg l). pose proof (len_nonneg x).
  destruct (len x <=? c); simpl; [specialize (IH (c - len x)); lia | lia].
Qed.

Lemma take_recent_neg (l : list bytes) (c : Z) :
  c < 0 -> take_recent c l = [].
Proof.
  intros Hc. destruct l as [|x l]; simpl; [reflexivity|].
  pose proof (len_nonneg x).
  destruct (Z.leb_spec (len x) c); [lia|reflexivity].
Qed.

(** Walking back from the newest chunk stops within the first chunks whose
    total exceeds the budget: what is older does not matter. *)
Lemma take_recent_app_over (l older : list bytes) (c : Z) :
  c < total l -> take_recent c (l ++ older) = take_recent c l.
Proof.
  revert c. induction l as [|x l IH]; intros c Hc; simpl in *.
  - apply take_recent_neg. exact Hc.
  - destruct (Z.leb_spec (len x) c); [|reflexivity].
    rewrite IH by lia. reflexivity.
Qed.

Lemma most_recent_fitting_ignores_older (older l : list bytes) :
  cap < total l ->
  most_recent_fitting cap (older ++ l) = most_recent_fitting cap l.
Proof.
  intros Hover. unfold most_recent_fitting.
  rewrite rev_app_distr, take_recent_app_over by (rewrite total_rev; exact Hover).
  reflexivity.
Qed.

Lemma since_last_clear_is_suffix (chunks : list bytes) :
  exists older, chunks = older ++ since_last_clear chunks.
Proof.
  induction chunks as [|c rest IH]; simpl.
  - exists []. reflexivity.
  - destruct (existsb (bytes_in ED2) rest).
    + destruct IH as [older IH]. exists (c :: older).
      simpl. rewrite <- IH. reflexivity.
    + exists []. reflexivity.
Qed.

(** [add_to_buffer] is its trimming loop run on [queue_before_trim] and
    [size_before_trim]. *)
Lemma add_to_buffer_cap_trim (data : bytes) (s : TerminalSession) :
  add_to_buffer_cap cap data s
  = set_buffer s
      (fst (trim cap (queue_before_trim data s) (size_before_trim data s)))
      (snd (trim cap (queue_before_trim data s) (size_before_trim data s))).
Proof.
  unfold add_to_buffer_cap, queue_before_trim, size_before_trim.
  destruct (bytes_in ED2 data);
    match goal with |- context [trim ?c ?b ?z] => destruct (trim c b z) end;
    reflexivity.
Qed.

(** The trimming loop pops from the front only, starts popping when the
    running size exceeds the cap, and stops as soon as the size is within
    the cap: with the chunk popped last the rest was still over it. *)
Lemma trim_fifo (buf : list bytes) :
  exists dropped,
    buf = dropped ++ fst (trim cap buf (total buf))
    /\ (cap < total buf -> dropped <> [])
    /\ forall older x, dropped = older ++ [x] ->
         cap < len x + total (fst (trim cap buf (total buf))).
Proof.
  induction buf as [|x buf IH]; simpl.
  - exists []. split; [reflexivity|]. split; [lia|].
    intros [|? ?] ? Heq; discriminate Heq.
  - destruct (Z.gtb_spec (len x + total buf) cap) as [Hgt|Hle].
    + replace (len x + total buf - len x) with (total buf) by lia.
      destruct IH as (dropped & Hsplit & _ & Hlast).
      exists (x :: dropped). split; [simpl; rewrite <- Hsplit; reflexivity|].
      split; [discriminate|].
      intros [|y older] z Heq; simpl in Heq; injection Heq as -> Heq.
      * subst dropped. simpl in Hsplit. rewrite <- Hsplit. lia.
      * apply (Hlast older z). exact Heq.
    + exists []. split; [reflexivity|]. split; [lia|].
      intros [|? ?] ? Heq; discriminate Heq.
Qed.

(** An append that pushes the total over the cap, after any sequence of
    appends on a fresh buffer: chunks are popped oldest first until the
    total fits, and what is left are the most recent chunks of the whole
    sequence that fit within the cap. *)
Lemma add_to_buffer_cap_over (h : list bytes) (data : bytes)
  (s0 : TerminalSession) :
  output_buffer s0 = [] ->
  output_buffer_size s0 = 0 ->
  let before := appends_cap cap h s0 in
  let s := add_to_buffer_cap cap data before in
  cap < size_before_trim data before ->
  output_buffer s = most_recent_fitting cap (h ++ [data])
  /\ exists dropped,
       dropped <> []
       /\ queue_before_trim data before = dropped ++ output_buffer s
       /\ forall older x, dropped = older ++ [x] ->
            cap < len x + total (output_buffer s).
Proof.
  intros Hbuf Hsize before s Hover.
  destruct (appends_cap_invariant h s0 Hbuf Hsize) as [Hkept Hexact].
  fold before in Hkept, Hexact.
  assert (Htotal : size_before_trim data before
                   = total (queue_before_trim data before)).
  { unfold size_before_trim, queue_before_trim.
    rewrite total_app. simpl.
    destruct (bytes_in ED2 data); simpl; lia. }
  split.
  - unfold s.
    rewrite (proj1 (add_to_buffer_cap_step h data before Hkept Hexact)).
    destruct (since_last_clear_is_suffix (h ++ [data])) as [older Holder].
    transitivity (most_recent_fitting cap
                    (older ++ since_last_clear (h ++ [data])));
      [|rewrite <- Holder; reflexivity].
    symmetry. apply most_recent_fitting_ignores_older.
    rewrite since_last_clear_snoc.
    unfold size_before_trim in Hover.
    destruct (bytes_in ED2 data).
    + simpl. lia.
    + rewrite total_app. simpl.
      rewrite Hexact, Hkept in Hover.
      pose proof (take_recent_total_le (rev (since_last_clear h)) cap) as Hle.
      unfold most_recent_fitting in Hover.
      rewrite !total_rev in *. lia.
  - subst s. rewrite add_to_buffer_cap_trim, Htotal.
    cbn [output_buffer set_buffer].
    destruct (trim_fifo (queue_before_trim data before))
      as (dropped & Hsplit & Hne & Hlast).
    exists dropped. split; [apply Hne; lia|].
    split; [exact Hsplit | exact Hlast].
Qed.

End ReplayBufferFacts.

(** Trimming at work, with a cap of five bytes: of three two-byte chunks the
    oldest is dropped. *)
Example trim_drops_oldest :
  output_buffer
    (ReplayBuffer.appends_cap 5 [[x61; x61]; [x62; x62]; [x63; x63]]
       (new_session "s1" "alice" 0 "bash" 0))
  = [[x62; x62]; [x63; x63]].
Proof. reflexivity. Qed.

Lemma cap_nonneg : 0 <= OUTPUT_BUFFER_MAX_BYTES.
Proof. unfold OUTPUT_BUFFER_MAX_BYTES. lia. Qed.

(** The content of the buffer after any sequence of [add_to_buffer] calls
    on a fresh replay buffer, whether or not a call trimmed: the running
    size is exact and at most [OUTPUT_BUFFER_MAX_BYTES]; the buffer holds, in
    arrival order, the most recent chunks that fit within the cap, counted
    among the chunks appended since (and including) the last chunk that
    contains ED2; the snapshot is their concatenation.  When no chunk
    contains ED2 these are the most recent fitting chunks of the whole
    sequence. *)
Lemma replay_buffer_bounded_recent
  (chunks : list bytes) (s0 : TerminalSession)
  (Hbuf : output_buffer s0 = []) (Hsize : output_buffer_size s0 = 0) :
  let s := ReplayBuffer.appends chunks s0 in
  let kept := ReplayBuffer.most_recent_fitting OUTPUT_BUFFER_MAX_BYTES
                (ReplayBuffer.since_last_clear chunks) in
  0 <= output_buffer_size s <= OUTPUT_BUFFER_MAX_BYTES
  /\ output_buffer_size s = len (ReplayBuffer.get_buffered_output s)
  /\ output_buffer s = kept
  /\ ReplayBuffer.get_buffered_output s = join kept
  /\ (existsb (bytes_in ED2) chunks = false ->
      ReplayBuffer.get_buffered_output s
      = join (ReplayBuffer.most_recent_fitting OUTPUT_BUFFER_MAX_BYTES chunks)).
Proof.
  intros s kept.
  destruct (appends_cap_invariant OUTPUT_BUFFER_MAX_BYTES
              chunks s0 Hbuf Hsize) as [Hkept Htotal].
  fold (ReplayBuffer.appends chunks s0) in Hkept, Htotal. fold s in Hkept, Htotal.
  fold kept in Hkept.
  assert (Hsnap : ReplayBuffer.get_buffered_output s = join kept)
    by (unfold ReplayBuffer.get_buffered_output; rewrite Hkept; reflexivity).
  repeat split.
  - rewrite Htotal. apply total_nonneg.
  - rewrite Htotal, Hkept.
    apply most_recent_fitting_bound, cap_nonneg.
  - unfold ReplayBuffer.get_buffered_output. rewrite len_join. exact Htotal.
  - exact Hkept.
  - exact Hsnap.
  - intros Hnone. rewrite Hsnap. unfold kept.
    rewrite since_last_clear_none by exact Hnone. reflexivity.
Qed.

(** Two small chunks, the second one starting with ED2, on a fresh
    session. *)
Lemma replay_buffer_bounded_recent_witness :
  let s := ReplayBuffer.appends [[x41]; ED2 ++ [x62]]
             (new_session "s1" "alice" 0 "bash" 0) in
  0 <= output_buffer_size s <= OUTPUT_BUFFER_MAX_BYTES
  /\ output_buffer s = [ED2 ++ [x62]].
Proof.
  pose proof (replay_buffer_bounded_recent [[x41]; ED2 ++ [x62]]
                (new_session "s1" "alice" 0 "bash" 0)
                eq_refl eq_refl) as (Hb & _ & Hk & _).
  split; [exact Hb | exact Hk].
Defined.

(** Without trimming the buffer need not hold the most recent fitting
    chunks of the whole sequence: after ["A"] and ["\x1b[2Jb"], five bytes in
    all and far below the cap, only the second chunk is left, the first
    having been discarded by the ED2 in the second. *)
Remark untrimmed_snapshot_after_clear :
  let s := ReplayBuffer.appends [[x41]; ED2 ++ [x62]]
             (new_session "s1" "alice" 0 "bash" 0) in
  ReplayBuffer.size_before_trim (ED2 ++ [x62])
    (ReplayBuffer.appends [[x41]] (new_session "s1" "alice" 0 "bash" 0))
  <= OUTPUT_BUFFER_MAX_BYTES
  /\ ReplayBuffer.get_buffered_output s = ED2 ++ [x62]
  /\ join (ReplayBuffer.most_recent_fitting OUTPUT_BUFFER_MAX_BYTES
             [[x41]; ED2 ++ [x62]])
     = [x41] ++ ED2 ++ [x62].
Proof. vm_compute. repeat split. discriminate. Qed.

(** Trimming at work, with a cap of five bytes, the second chunk containing
    ED2: the third append pushes the total to six bytes, the ED2 chunk is
    popped, and the newest chunk alone is what fits of the whole
    sequence. *)
Example trim_after_clear :
  let before := ReplayBuffer.appends_cap 5 [[x61]; ED2]
                  (new_session "s1" "alice" 0 "bash" 0) in
  let s := ReplayBuffer.add_to_buffer_cap 5 [x62; x62] before in
  output_buffer before = [ED2]
  /\ ReplayBuffer.size_before_trim [x62; x62] before = 6
  /\ output_buffer s = [[x62; x62]]
  /\ ReplayBuffer.most_recent_fitting 5 [[x61]; ED2; [x62; x62]]
     = [[x62; x62]].
Proof. vm_compute. repeat split. Qed.

(** C1.  For every sequence of [add_to_buffer] calls on a fresh replay
    buffer, [data] being the chunk appended last: the running size after the
    append is exact and at most [OUTPUT_BUFFER_MAX_BYTES]; and when the
    append pushes the total over the cap (the running size reached before
    the trimming loop exceeds it), chunks are dropped from the front of the
    deque, oldest first, at least one and no more than needed (with the
    chunk dropped last the total was still over the cap), the buffer then
    holds the most recent chunks of the whole sequence that fit within the
    cap, and the snapshot is their concatenation in arrival order. *)
Theorem replay_buffer_cap_and_trim
  (chunks : list bytes) (data : bytes) (s0 : TerminalSession)
  (Hbuf : output_buffer s0 = []) (Hsize : output_buffer_size s0 = 0) :
  let before := ReplayBuffer.appends chunks s0 in
  let s := ReplayBuffer.add_to_buffer data before in
  let recent := ReplayBuffer.most_recent_fitting OUTPUT_BUFFER_MAX_BYTES
                  (chunks ++ [data]) in
  s = ReplayBuffer.appends (chunks ++ [data]) s0
  /\ 0 <= output_buffer_size s <= OUTPUT_BUFFER_MAX_BYTES
  /\ output_buffer_size s = len (ReplayBuffer.get_buffered_output s)
  /\ (OUTPUT_BUFFER_MAX_BYTES < ReplayBuffer.size_before_trim data before ->
      (exists dropped,
          dropped <> []
          /\ ReplayBuffer.queue_before_trim data before
             = dropped ++ output_buffer s
          /\ forall older x, dropped = older ++ [x] ->
               OUTPUT_BUFFER_MAX_BYTES < len x + output_buffer_size s)
      /\ output_buffer s = recent
      /\ ReplayBuffer.get_buffered_output s = join recent).
Proof.
  intros before s recent.
  assert (Hs : s = ReplayBuffer.appends (chunks ++ [data]) s0).
  { unfold s, before, ReplayBuffer.appends, ReplayBuffer.appends_cap.
    rewrite fold_left_app. reflexivity. }
  destruct (appends_cap_invariant OUTPUT_BUFFER_MAX_BYTES
              (chunks ++ [data]) s0 Hbuf Hsize) as [Hkept Hexact].
  fold (ReplayBuffer.appends (chunks ++ [data]) s0) in Hkept, Hexact.
  rewrite <- Hs in Hkept, Hexact.
  split; [exact Hs|].
  split.
  { rewrite Hexact. split; [apply total_nonneg|].
    rewrite Hkept. apply most_recent_fitting_bound, cap_nonneg. }
  split.
  { unfold ReplayBuffer.get_buffered_output. rewrite len_join. exact Hexact. }
  intros Hover.
  destruct (add_to_buffer_cap_over OUTPUT_BUFFER_MAX_BYTES cap_nonneg
              chunks data s0 Hbuf Hsize Hover) as (Hrecent & dropped & Hd).
  fold (ReplayBuffer.appends chunks s0) in Hrecent, Hd. fold before in Hrecent, Hd.
  fold (ReplayBuffer.add_to_buffer data before) in Hrecent, Hd.
  fold s in Hrecent, Hd.
  split.
  - exists dropped. rewrite Hexact. exact Hd.
  - split; [exact Hrecent|].
    unfold ReplayBuffer.get_buffered_output. rewrite Hrecent. reflexivity.
Qed.

(** Two chunks of 600,000 bytes on a fresh session: the second append
    pushes the total to 1,200,000 bytes, the first chunk is dropped and the
    second is the snapshot. *)
Lemma replay_buffer_cap_and_trim_witness :
  let a := repeat x61 (Z.to_nat 600000) in
  let b := repeat x62 (Z.to_nat 600000) in
  let s := ReplayBuffer.add_to_buffer b
             (ReplayBuffer.appends [a] (new_session "s1" "alice" 0 "bash" 0)) in
  0 <= output_buffer_size s <= OUTPUT_BUFFER_MAX_BYTES
  /\ ReplayBuffer.get_buffered_output s
     = join (ReplayBuffer.most_recent_fitting OUTPUT_BUFFER_MAX_BYTES [a; b]).
Proof.
  intros a b s.
  pose proof (replay_buffer_cap_and_trim [a] b
                (new_session "s1" "alice" 0 "bash" 0)
                eq_refl eq_refl) as (_ & Hb & _ & Hover).
  split; [exact Hb|].
  apply Hover. vm_compute. reflexivity.
Defined.

(** C8.  In any buffer state, appending a chunk that contains ED2 discards
    everything buffered before: the buffer then holds that chunk alone (or
    nothing, should the chunk itself exceed the cap), and the running size
    is that of what is held. *)
Theorem add_to_buffer_clear_display
  (s : TerminalSession) (data : bytes)
  (Hclear : bytes_in ED2 data = true) :
  let s' := ReplayBuffer.add_to_buffer data s in
  output_buffer s' = (if len data <=? OUTPUT_BUFFER_MAX_BYTES then [data] else [])
  /\ ReplayBuffer.get_buffered_output s'
     = (if len data <=? OUTPUT_BUFFER_MAX_BYTES then data else [])
  /\ output_buffer_size s' = len (ReplayBuffer.get_buffered_output s').
Proof.
  unfold ReplayBuffer.add_to_buffer, ReplayBuffer.add_to_buffer_cap.
  rewrite Hclear. cbn [app ReplayBuffer.trim].
  rewrite Z.add_0_l.
  destruct (Z.gtb_spec (len data) OUTPUT_BUFFER_MAX_BYTES) as [Hgt|Hle];
    destruct (Z.leb_spec (len data) OUTPUT_BUFFER_MAX_BYTES); try lia;
    unfold ReplayBuffer.get_buffered_output, join;
    cbn [output_buffer output_buffer_size set_buffer concat];
    rewrite ?app_nil_r; repeat split.
  unfold len at 3. simpl. lia.
Qed.

(** [append("A"); append("\x1b[2Jb")]: the snapshot is ["\x1b[2Jb"]. *)
Lemma add_to_buffer_clear_display_witness :
  bytes_in ED2 (ED2 ++ [x62]) = true
  /\ ReplayBuffer.get_buffered_output
       (ReplayBuffer.add_to_buffer (ED2 ++ [x62])
          (ReplayBuffer.add_to_buffer [x41]
             (new_session "s1" "alice" 0 "bash" 0)))
     = ED2 ++ [x62].
Proof.
  split; [reflexivity|].
  exact (proj1 (proj2 (add_to_buffer_clear_display
    (ReplayBuffer.add_to_buffer [x41] (new_session "s1" "alice" 0 "bash" 0))
    (ED2 ++ [x62]) eq_refl))).
Defined.

(** ** Binary64: the order of floats

    The comparisons of [PrimFloat] are specified by [SFcompare] on
    [spec_float]; what the limiter needs of them is that [<] is asymmetric
    and irreflexive, and that [x < y <= z] gives [x < z], for all floats,
    infinities and NaN included. *)

Ltac compare_cases :=
  repeat match goal with
    | H : context [Pos.compare_cont Eq ?a ?b] |- _ =>
        change (Pos.compare_cont Eq a b) with (Pos.compare a b) in H
    | |- context [Pos.compare_cont Eq ?a ?b] =>
        change (Pos.compare_cont Eq a b) with (Pos.compare a b)
    end;
  repeat match goal with
    | H : context [Z.compare ?a ?b] |- _ => destruct (Z.compare_spec a b)
    | |- context [Z.compare ?a ?b] => destruct (Z.compare_spec a b)
    | H : context [Pos.compare ?a ?b] |- _ => destruct (Pos.compare_spec a b)
    | |- context [Pos.compare ?a ?b] => destruct (Pos.compare_spec a b)
    end;
  simpl in *; try congruence; try lia.

Lemma SFcompare_Lt_Gt (x y : spec_float) :
  SFcompare x y = Some Lt -> SFcompare y x = Some Gt.
Proof.
  destruct x as [[]|[]| |[] mx ex], y as [[]|[]| |[] my ey]; simpl;
    try congruence; compare_cases.
Qed.

Lemma SFcompare_diag (x : spec_float) : SFcompare x x <> Some Lt.
Proof.
  destruct x as [[]|[]| |[] mx ex]; simpl; try congruence; compare_cases.
Qed.

Lemma SFcompare_Lt_Le_trans (x y z : spec_float) :
  SFcompare x y = Some Lt ->
  SFcompare y z = Some Lt \/ SFcompare y z = Some Eq ->
  SFcompare x z = Some Lt.
Proof.
  destruct x as [[]|[]| |[] mx ex], y as [[]|[]| |[] my ey],
    z as [[]|[]| |[] mz ez]; simpl; intros H1 [H2|H2];
    try congruence; compare_cases.
Qed.

Lemma ltb_asym (x y : float) :
  PrimFloat.ltb x y = true -> PrimFloat.ltb y x = false.
Proof.
  rewrite !FloatAxioms.ltb_spec. unfold SFltb.
  destruct (SFcompare (Prim2SF x) (Prim2SF y)) as [[]|] eqn:E; try discriminate.
  intros _. rewrite (SFcompare_Lt_Gt _ _ E). reflexivity.
Qed.

Lemma ltb_irrefl (x : float) : PrimFloat.ltb x x = false.
Proof.
  rewrite FloatAxioms.ltb_spec. unfold SFltb.
  pose proof (SFcompare_diag (Prim2SF x)).
  destruct (SFcompare (Prim2SF x) (Prim2SF x)) as [[]|]; congruence.
Qed.

Lemma ltb_leb_trans (x y z : float) :
  PrimFloat.ltb x y = true -> PrimFloat.leb y z = true ->
  PrimFloat.ltb x z = true.
Proof.
  rewrite !FloatAxioms.ltb_spec, FloatAxioms.leb_spec. unfold SFltb, SFleb.
  destruct (SFcompare (Prim2SF x) (Prim2SF y)) as [[]|] eqn:E1; try discriminate.
  destruct (SFcompare (Prim2SF y) (Prim2SF z)) as [[]|] eqn:E2; try discriminate;
    intros _ _.
  - rewrite (SFcompare_Lt_Le_trans _ _ _ E1 (or_intror E2)). reflexivity.
  - rewrite (SFcompare_Lt_Le_trans _ _ _ E1 (or_introl E2)). reflexivity.
Qed.

(** A finite float is a zero or has a mantissa and an exponent. *)
Lemma is_finite_spec (x : float) :
  PrimFloat.is_finite x = true ->
  (exists s, Prim2SF x = S754_zero s)
  \/ (exists s m e, Prim2SF x = S754_finite s m e).
Proof.
  unfold is_finite, is_nan, is_infinity.
  rewrite !FloatAxioms.eqb_spec, FloatAxioms.abs_spec.
  destruct (Prim2SF x) as [s|[]| |s m e]; simpl.
  - intros _. left. exists s. reflexivity.
  - vm_compute. discriminate.
  - vm_compute. discriminate.
  - vm_compute. discriminate.
  - intros _. right. exists s, m, e. reflexivity.
Qed.

(** Between two readings of the same finite clock value no time has
    elapsed: [t - t] is [+0]. *)
Lemma sub_diag (x : float) :
  PrimFloat.is_finite x = true -> PrimFloat.sub x x = PrimFloat.zero.
Proof.
  intros Hfin. apply Prim2SF_inj. rewrite FloatAxioms.sub_spec.
  destruct (is_finite_spec x Hfin) as [[s ->]|(s & m & e & ->)].
  - destruct s; reflexivity.
  - unfold SF64sub, SFsub. rewrite Z.min_id.
    unfold shl_align. rewrite !Z.sub_diag. reflexivity.
Qed.

(** ** Binary64: rounding a product

    The product of two floats is the exact product of the mantissas rounded
    to 53 bits by [binary_round_aux].  For the refill [elapsed * rate] what
    matters is that rounding does not take the product below a float that
    the exact product reaches: with at least one second elapsed and a rate
    of 100, at least 100 tokens are refilled. *)

Lemma shr_1_m (mrs : shr_record) :
  0 <= shr_m mrs -> shr_m (shr_1 mrs) = shr_m mrs / 2.
Proof.
  destruct mrs as [m r s]. intros Hm.
  destruct m as [|[p|p|]|p]; simpl in *; try lia; try reflexivity.
  - apply Z.div_unique with 1; lia.
  - apply Z.div_unique with 0; lia.
Qed.

Lemma iter_shr_m (n : positive) (mrs : shr_record) :
  0 <= shr_m mrs ->
  shr_m (SpecFloat.iter_pos shr_1 n mrs) = shr_m mrs / 2 ^ Zpos n.
Proof.
  revert mrs. induction n as [n IH|n IH|]; intros mrs Hm; simpl SpecFloat.iter_pos.
  - assert (H1 : 0 <= shr_m (shr_1 mrs))
      by (rewrite shr_1_m by exact Hm; apply Z.div_pos; lia).
    assert (H2 : 0 <= shr_m (SpecFloat.iter_pos shr_1 n (shr_1 mrs)))
      by (rewrite IH by exact H1; apply Z.div_pos; lia).
    rewrite IH by exact H2. rewrite IH by exact H1. rewrite shr_1_m by exact Hm.
    rewrite !Z.div_div by lia.
    f_equal.
    replace (Zpos n~1) with (1 + (Zpos n + Zpos n)) by lia.
    rewrite (Z.pow_add_r 2 1 (Zpos n + Zpos n)) by lia.
    rewrite (Z.pow_add_r 2 (Zpos n) (Zpos n)) by lia. lia.
  - assert (H2 : 0 <= shr_m (SpecFloat.iter_pos shr_1 n mrs))
      by (rewrite IH by exact Hm; apply Z.div_pos; lia).
    rewrite IH by exact H2. rewrite IH by exact Hm.
    rewrite !Z.div_div by lia.
    f_equal.
    replace (Zpos n~0) with (Zpos n + Zpos n) by lia.
    rewrite (Z.pow_add_r 2 (Zpos n) (Zpos n)) by lia. lia.
  - rewrite shr_1_m by exact Hm. reflexivity.
Qed.

Lemma pow2_succ (d : Z) : 0 <= d -> 2 ^ (d + 1) = 2 * 2 ^ d.
Proof. intros Hd. rewrite Z.pow_add_r by lia. lia. Qed.

Lemma digits2_pos_bounds (m : positive) :
  2 ^ (Zpos (digits2_pos m) - 1) <= Zpos m < 2 ^ Zpos (digits2_pos m).
Proof.
  induction m as [m IH|m IH|]; simpl digits2_pos.
  - assert (Hs : Zpos (Pos.succ (digits2_pos m)) = Zpos (digits2_pos m) + 1)
      by lia.
    rewrite Hs. set (d := Zpos (digits2_pos m)) in *.
    replace (d + 1 - 1) with (d - 1 + 1) by lia.
    rewrite !pow2_succ by lia. lia.
  - assert (Hs : Zpos (Pos.succ (digits2_pos m)) = Zpos (digits2_pos m) + 1)
      by lia.
    rewrite Hs. set (d := Zpos (digits2_pos m)) in *.
    replace (d + 1 - 1) with (d - 1 + 1) by lia.
    rewrite !pow2_succ by lia. lia.
  - simpl. lia.
Qed.

Lemma digits2_pos_unique (m : positive) (k : Z) :
  2 ^ (k - 1) <= Zpos m < 2 ^ k -> Zpos (digits2_pos m) = k.
Proof.
  intros [Hlo Hhi]. pose proof (digits2_pos_bounds m) as [Dlo Dhi].
  assert (Hk : 0 < k).
  { destruct (Z.lt_ge_cases 0 k) as [|Hle]; [assumption|].
    exfalso. destruct (Z.eq_dec k 0) as [->|Hne].
    - simpl in Hhi. lia.
    - rewrite (Z.pow_neg_r 2 k) in Hhi by lia. lia. }
  destruct (Z.lt_trichotomy (Zpos (digits2_pos m)) k) as [Hlt|[Heq|Hgt]];
    [|exact Heq|]; exfalso.
  - assert (2 ^ Zpos (digits2_pos m) <= 2 ^ (k - 1))
      by (apply Z.pow_le_mono_r; lia). lia.
  - assert (2 ^ k <= 2 ^ (Zpos (digits2_pos m) - 1))
      by (apply Z.pow_le_mono_r; lia). lia.
Qed.

Lemma round_nearest_even_bounds (mx : Z) (lx : location) :
  mx <= round_nearest_even mx lx <= mx + 1.
Proof.
  destruct lx as [|[]]; simpl; try lia. destruct (Z.even mx); lia.
Qed.

(** Rounding a mantissa of [53 + n] bits: the result is finite or [+oo], and
    a finite result is not below the truncated mantissa. *)
Lemma binary_round_aux_long (M n : positive) (E : Z) :
  Zpos (digits2_pos M) = 53 + Zpos n ->
  -1074 <= E + Zpos n ->
  binary_round_aux prec emax false (Zpos M) E loc_Exact = S754_infinity false
  \/ exists mf ef,
       binary_round_aux prec emax false (Zpos M) E loc_Exact
       = S754_finite false mf ef
       /\ ((ef = E + Zpos n /\ Zpos M / 2 ^ Zpos n <= Zpos mf)
           \/ ef = E + Zpos n + 1).
Proof.
  intros Hd HE.
  pose proof (digits2_pos_bounds M) as [Mlo Mhi]. rewrite Hd in Mlo, Mhi.
  set (mrs' := SpecFloat.iter_pos shr_1 n (shr_record_of_loc (Zpos M) loc_Exact)).
  assert (H1 : shr_fexp prec emax (Zpos M) E loc_Exact = (mrs', E + Zpos n)).
  { assert (Hn : fexp prec emax (Zdigits2 (Zpos M) + E) - E = Zpos n)
      by (unfold fexp, emin, prec, emax; cbn [Zdigits2]; lia).
    unfold shr_fexp. rewrite Hn. reflexivity. }
  assert (Hm' : shr_m mrs' = Zpos M / 2 ^ Zpos n)
    by (unfold mrs'; rewrite iter_shr_m by (simpl; lia); reflexivity).
  assert (Hq : 2 ^ 52 <= Zpos M / 2 ^ Zpos n < 2 ^ 53).
  { replace (53 + Zpos n - 1) with (52 + Zpos n) in Mlo by lia.
    rewrite Z.pow_add_r in Mlo, Mhi by lia.
    assert (0 < 2 ^ Zpos n) by (apply Z.pow_pos_nonneg; lia).
    split.
    - apply Z.div_le_lower_bound; lia.
    - apply Z.div_lt_upper_bound; lia. }
  pose proof (round_nearest_even_bounds (shr_m mrs') (loc_of_shr_record mrs'))
    as Hr.
  unfold binary_round_aux. rewrite H1.
  set (m'' := round_nearest_even (shr_m mrs') (loc_of_shr_record mrs')) in *.
  rewrite Hm' in Hr.
  destruct m'' as [|p|p] eqn:Hp; try lia.
  destruct (Z.eq_dec (Zpos p) (2 ^ 53)) as [Htop|Hnot].
  - assert (Hn : fexp prec emax (Zdigits2 (Zpos p) + (E + Zpos n))
                 - (E + Zpos n) = 1).
    { assert (Hdp : Zpos (digits2_pos p) = 54)
        by (apply digits2_pos_unique; rewrite Htop; simpl; lia).
      unfold fexp, emin, prec, emax; cbn [Zdigits2]; lia. }
    unfold shr_fexp. rewrite Hn.
    injection Htop as ->. cbn.
    match goal with |- context [if ?c then _ else _] => destruct c end;
      [|left; reflexivity].
    right. eexists _, _. split; [reflexivity|]. right. reflexivity.
  - assert (Hn : fexp prec emax (Zdigits2 (Zpos p) + (E + Zpos n))
                 - (E + Zpos n) = 0).
    { assert (Hdp : Zpos (digits2_pos p) = 53)
        by (apply digits2_pos_unique; simpl; lia).
      unfold fexp, emin, prec, emax; cbn [Zdigits2]; lia. }
    unfold shr_fexp. rewrite Hn. cbn.
    match goal with |- context [if ?c then _ else _] => destruct c end;
      [|left; reflexivity].
    right. eexists _, _. split; [reflexivity|]. left. split; [reflexivity|lia].
Qed.

Lemma SFleb_finite_pos (m1 m2 : positive) (e1 e2 : Z) :
  e1 < e2 \/ (e1 = e2 /\ (m1 <= m2)%positive) ->
  SFleb (S754_finite false m1 e1) (S754_finite false m2 e2) = true.
Proof.
  intros H. unfold SFleb, SFcompare.
  destruct (Z.compare_spec e1 e2); try lia; try reflexivity.
  change (Pos.compare_cont Eq m1 m2) with (Pos.compare m1 m2).
  destruct (Pos.compare_spec m1 m2); try reflexivity. lia.
Qed.

(** With at least one second elapsed, a rate of 100 tokens per second
    refills at least 100 tokens. *)
Lemma mul_100_ge (e : float) :
  PrimFloat.leb 1 e = true -> PrimFloat.leb 100 (e * 100) = true.
Proof.
  intros H. rewrite FloatAxioms.leb_spec in *. rewrite FloatAxioms.mul_spec.
  pose proof (Prim2SF_valid e) as Hv.
  replace (Prim2SF 1) with (S754_finite false 4503599627370496 (-52)) in H
    by (vm_compute; reflexivity).
  replace (Prim2SF 100) with (S754_finite false 7036874417766400 (-46))
    by (vm_compute; reflexivity).
  destruct (Prim2SF e) as [s|[]| |[] m ex]; try discriminate H.
  - reflexivity.
  - unfold SF64mul, SFmul. cbn [xorb].
    assert (Hex : -52 <= ex).
    { unfold SFleb, SFcompare in H.
      destruct (Z.compare_spec (-52) ex); first [lia | discriminate H]. }
    assert (Hd : Zpos (digits2_pos m) = 53).
    { cbn [valid_binary] in Hv. unfold bounded, canonical_mantissa in Hv.
      apply andb_true_iff in Hv as [Hc _]. apply Z.eqb_eq in Hc.
      unfold fexp, emin, prec, emax in Hc. lia. }
    pose proof (digits2_pos_bounds m) as [mlo mhi]. rewrite Hd in mlo, mhi.
    change (2 ^ (53 - 1)) with 4503599627370496 in mlo.
    change (2 ^ 53) with 9007199254740992 in mhi.
    set (M := (m * 7036874417766400)%positive).
    assert (HM : Zpos M = Zpos m * 7036874417766400) by (unfold M; lia).
    assert (Hround : exists n,
               (n = 52%positive \/ n = 53%positive)
               /\ Zpos (digits2_pos M) = 53 + Zpos n).
    { destruct (Z.lt_ge_cases (Zpos M) (2 ^ 105)) as [Hlt|Hge].
      - exists 52%positive. split; [left; reflexivity|].
        apply digits2_pos_unique.
        change (2 ^ (53 + 52 - 1)) with 20282409603651670423947251286016.
        change (2 ^ (53 + 52)) with (2 ^ 105). lia.
      - exists 53%positive. split; [right; reflexivity|].
        apply digits2_pos_unique.
        change (2 ^ (53 + 53 - 1)) with (2 ^ 105).
        change (2 ^ (53 + 53)) with 81129638414606681695789005144064. lia. }
    destruct Hround as (n & Hn & HdM).
    destruct (binary_round_aux_long M n (ex + -46) HdM ltac:(lia))
      as [->|(mf & ef & -> & Hres)]; [reflexivity|].
    apply SFleb_finite_pos.
    destruct Hres as [[-> Hmf]| ->]; [|lia].
    destruct (Z.eq_dec ex (-52)) as [->|Hne]; [|lia].
    destruct Hn as [->| ->]; [|lia].
    right. split; [reflexivity|].
    assert (7036874417766400 <= Zpos M / 2 ^ 52); [|lia].
    apply Z.div_le_lower_bound; [reflexivity|].
    change (2 ^ 52) with 4503599627370496. lia.
Qed.

(** Adding to an empty bucket: [0 + x] is [x] for an [x] of at least 100. *)
Lemma add_zero_ge_100 (x : float) :
  PrimFloat.leb 100 x = true -> PrimFloat.add 0 x = x.
Proof.
  intros H. apply Prim2SF_inj.
  rewrite FloatAxioms.leb_spec in H. rewrite FloatAxioms.add_spec.
  replace (Prim2SF 100) with (S754_finite false 7036874417766400 (-46)) in H
    by (vm_compute; reflexivity).
  replace (Prim2SF 0) with (S754_zero false) by (vm_compute; reflexivity).
  destruct (Prim2SF x) as [s|s| |s m ex]; try discriminate H; reflexivity.
Qed.

(** ** Rate limiter *)

Section RateLimiterFacts.
Import RateLimiter.

(** Python's [min(burst, x)] never exceeds [burst] in the order of floats,
    whatever [x] is. *)
Lemma py_min_capped (cap x : float) : lt cap (py_min cap x) = false.
Proof.
  unfold py_min. cbn [lt Arith_binary64].
  destruct (PrimFloat.ltb x cap) eqn:E.
  - apply ltb_asym. exact E.
  - apply ltb_irrefl.
Qed.

Lemma refilled_capped (rl : RateLimiter float) (now : float) :
  lt (of_int (burst rl)) (refilled now rl) = false.
Proof. unfold refilled. apply py_min_capped. Qed.

(** The example on binary64, for any finite clock value [t0] and any
    later clock value [t1] that the limiter measures as at least one second
    after [t0]. *)
Lemma example_run_at_binary64 (t0 t1 : float) :
  PrimFloat.is_finite t0 = true ->
  PrimFloat.leb 1 (PrimFloat.sub t1 t0) = true ->
  example_run_at t0 t1 = (true, false, true).
Proof.
  intros Hfin Hone.
  unfold example_run_at, default_limiter, DEFAULT_RATE, DEFAULT_BURST, init.
  unfold acquire at 1. unfold refilled.
  cbn [rate burst tokens last_update sub Arith_binary64].
  rewrite (sub_diag t0 Hfin).
  match goal with |- context [ge ?a ?b] =>
    replace (ge a b) with true by (vm_compute; reflexivity) end.
  unfold acquire at 1. unfold refilled.
  cbn [rate burst tokens last_update sub Arith_binary64].
  rewrite (sub_diag t0 Hfin).
  match goal with |- context [ge ?a ?b] =>
    replace (ge a b) with false by (vm_compute; reflexivity) end.
  unfold acquire, refilled, py_min.
  cbn [rate burst tokens last_update sub Arith_binary64].
  set (elapsed := PrimFloat.sub t1 t0) in *.
  pose proof (mul_100_ge elapsed Hone) as Hrefill.
  vm_compute. fold elapsed.
  rewrite (add_zero_ge_100 _ Hrefill).
  destruct (PrimFloat.ltb (PrimFloat.mul elapsed 100) 500).
  - rewrite Hrefill. reflexivity.
  - reflexivity.
Qed.

(** The clock value [t0 + 1.0] need not be measured as one second after
    [t0]: from [t0 = 0.4] the difference, as the limiter computes it, is
    [0.99999999999999989], below one second; the bucket has refilled to
    just under 100 tokens, and [acquire(100)] is refused. *)
Remark example_run_rounding :
  let t0 := 0x1.999999999999ap-2%float in
  PrimFloat.ltb (PrimFloat.sub (PrimFloat.add t0 PrimFloat.one) t0)
    PrimFloat.one = true
  /\ example_run t0 = (true, false, false).
Proof. vm_compute. split; reflexivity. Qed.

(** C2.  [acquire(n)] at loop time [now], in binary64 as the interpreter
    computes it, for [int] operands that binary64 represents exactly: the
    tokens available are the old tokens plus elapsed time times rate when
    that is below [burst], and [burst] otherwise, so never more than
    [burst]; the call returns [True] exactly when at least [n] are
    available, and then takes [n] of them; otherwise it returns [False]
    and leaves the refilled amount; either way it returns at once, having
    changed nothing but [tokens] and [last_update], which is now [now].
    With the defaults (burst 500, rate 100) and a limiter created at a
    finite loop time [t0], [acquire(500)] succeeds, an [acquire(1)] at the
    same loop time fails and, at any loop time [t1] that the limiter
    measures as one second later or more ([t1 - t0 >= 1.0]),
    [acquire(100)] succeeds. *)
Theorem acquire_token_bucket :
  (forall (rl : RateLimiter float) (n : Z) (now : float),
     exact_int n = true ->
     exact_int (burst rl) = true ->
     let elapsed := sub now (last_update rl) in
     let refill := add (tokens rl) (mul elapsed (rate rl)) in
     let available :=
       if lt refill (of_int (burst rl)) then refill else of_int (burst rl) in
     let ok := ge available (of_int n) in
     lt (of_int (burst rl)) available = false
     /\ acquire n now rl
        = (ok, mkLimiter (rate rl) (burst rl)
                 (if ok then sub available (of_int n) else available) now))
  /\ DEFAULT_BURST = 500 /\ DEFAULT_RATE = 100
  /\ (forall t0 t1 : float,
        PrimFloat.is_finite t0 = true ->
        ge (sub t1 t0) (of_int 1) = true ->
        example_run_at t0 t1 = (true, false, true)).
Proof.
  split; [|split; [reflexivity|split; [reflexivity|]]].
  - intros rl n now _ _ elapsed refill available ok.
    split.
    + exact (refilled_capped rl now).
    + unfold acquire. fold elapsed.
      change (refilled now rl) with available. fold ok.
      destruct ok; reflexivity.
  - intros t0 t1 Hfin Hone. apply example_run_at_binary64; assumption.
Qed.

(** A limiter created at loop time 1000.5 and used again at 1001.5; one
    created at 0.4 and used again at 1.5; and a call [acquire(3)] at loop
    time 0.25 on a bucket holding one token. *)
Lemma acquire_token_bucket_witness :
  example_run_at 1000.5%float 1001.5%float = (true, false, true)
  /\ example_run_at 0x1.999999999999ap-2%float 1.5%float = (true, false, true)
  /\ acquire 3 0.25%float (mkLimiter (of_int 100) 500 1%float 0%float)
     = (true, mkLimiter (of_int 100) 500 23%float 0.25%float).
Proof.
  destruct acquire_token_bucket as (Hgeneral & _ & _ & Hexample).
  split; [|split].
  - apply Hexample; reflexivity.
  - apply Hexample; reflexivity.
  - destruct (Hgeneral (mkLimiter (of_int 100) 500 1%float 0%float)
                3 0.25%float eq_refl eq_refl) as [_ Hacquire].
    exact Hacquire.
Defined.

End RateLimiterFacts.

(** ** Session registry *)

Section RegistryFacts.
Import Registry.

(** C3.  [create_session] checks the per-user limit first and the global
    limit second; when either is reached it raises and leaves the world as
    it was: neither dictionary changes and the PTY factory is not called.
    Otherwise it calls the factory once and, when that returns a manager,
    registers a new session under the generated id in the session map and
    in the user's index entry. *)
Theorem create_session_capacity
  (factory : PTYFactory) (uid : string) (shell : option string)
  (cols rows : Z) (uuid : string) (now : Z) (w : World) :
  (MAX_SESSIONS_PER_USER <= Z.of_nat (size (sessions_of uid w)) ->
   create_session factory uid shell cols rows uuid now w
   = (Raised "ValueError" "Maximum sessions (10) reached for user", w))
  /\ (Z.of_nat (size (sessions_of uid w)) < MAX_SESSIONS_PER_USER ->
      MAX_TOTAL_SESSIONS <= Z.of_nat (size (_sessions w)) ->
      create_session factory uid shell cols rows uuid now w
      = (Raised "ValueError" "Server session limit reached", w))
  /\ (Z.of_nat (size (sessions_of uid w)) < MAX_SESSIONS_PER_USER ->
      Z.of_nat (size (_sessions w)) < MAX_TOTAL_SESSIONS ->
      forall (pty : nat) (heap : gmap nat SecurePTYManager),
        factory shell cols rows (ptys w) = (Ok pty, heap) ->
        exists (session : TerminalSession) (w' : World),
          create_session factory uid shell cols rows uuid now w
          = (Ok session, w')
          /\ session = new_session uuid uid pty (shell_or_default shell) now
          /\ _sessions w' !! uuid = Some session
          /\ _user_sessions w' !! uid = Some (sessions_of uid w ∪ {[uuid]})
          /\ (forall sid, sid ≠ uuid -> _sessions w' !! sid = _sessions w !! sid)
          /\ (forall u, u ≠ uid ->
                _user_sessions w' !! u = _user_sessions w !! u)
          /\ (_sessions w !! uuid = None ->
              size (_sessions w') = S (size (_sessions w)))
          /\ ptys w' = heap
          /\ factory_calls w' = factory_calls w ++ [(shell, cols, rows)]).
Proof.
  unfold create_session. repeat split.
  - intros Huser.
    destruct (Z.geb_spec (Z.of_nat (size (sessions_of uid w)))
                MAX_SESSIONS_PER_USER); [reflexivity | lia].
  - intros Huser Hall.
    destruct (Z.geb_spec (Z.of_nat (size (sessions_of uid w)))
                MAX_SESSIONS_PER_USER); [lia|].
    destruct (Z.geb_spec (Z.of_nat (size (_sessions w)))
                MAX_TOTAL_SESSIONS); [reflexivity | lia].
  - intros Huser Hall pty heap Hspawn.
    destruct (Z.geb_spec (Z.of_nat (size (sessions_of uid w)))
                MAX_SESSIONS_PER_USER); [lia|].
    destruct (Z.geb_spec (Z.of_nat (size (_sessions w)))
                MAX_TOTAL_SESSIONS); [lia|].
    rewrite Hspawn.
    eexists _, _. split; [reflexivity|]. simpl.
    repeat split.
    + apply lookup_insert_eq.
    + apply lookup_insert_eq.
    + intros sid Hsid. apply lookup_insert_ne. congruence.
    + intros u Hu. apply lookup_insert_ne. congruence.
    + intros Hfresh. apply map_size_insert_None. exact Hfresh.
Qed.

(** The eleventh session of a user: refused, nothing spawned. *)
Lemma create_session_capacity_witness :
  create_session spawning_factory "alice" None 120 30 "s10" 5
    world_at_user_limit
  = (Raised "ValueError" "Maximum sessions (10) reached for user",
     world_at_user_limit)
  /\ length (factory_calls world_at_user_limit) = 10%nat.
Proof.
  split; [|vm_compute; reflexivity].
  apply (proj1 (create_session_capacity spawning_factory "alice" None 120 30
                  "s10" 5 world_at_user_limit)).
  apply Z.leb_le. vm_compute. reflexivity.
Defined.

(** C6.  A reconnect by a user who does not own the session gives exactly what
    a reconnect to an unknown id gives: [None], with nothing changed (no
    socket closed, no session touched).  From the result and from the world
    afterwards the caller cannot tell whether the id exists. *)
Theorem reconnect_mismatch_indistinguishable
  (w_other w_unknown : World) (sid uid : string) (ws : nat) (now : Z)
  (s : TerminalSession)
  (Hknown : _sessions w_other !! sid = Some s)
  (Hmismatch : user_id s ≠ uid)
  (Hunknown : _sessions w_unknown !! sid = None) :
  reconnect_session sid uid ws now w_other = (None, w_other)
  /\ reconnect_session sid uid ws now w_unknown = (None, w_unknown)
  /\ fst (reconnect_session sid uid ws now w_other)
     = fst (reconnect_session sid uid ws now w_unknown).
Proof.
  assert (H1 : reconnect_session sid uid ws now w_other = (None, w_other)).
  { unfold reconnect_session. rewrite Hknown.
    rewrite bool_decide_eq_false_2 by exact Hmismatch. reflexivity. }
  assert (H2 : reconnect_session sid uid ws now w_unknown = (None, w_unknown)).
  { unfold reconnect_session. rewrite Hunknown. reflexivity. }
  rewrite H1, H2. repeat split.
Qed.

(** ["bob"] tries ["s0"], which is ["alice"]'s, in one world and which does
    not exist in the other. *)
Lemma reconnect_mismatch_indistinguishable_witness :
  reconnect_session "s0" "bob" 9 2 world_connected = (None, world_connected)
  /\ reconnect_session "s0" "bob" 9 2 empty_world = (None, empty_world).
Proof.
  destruct (reconnect_mismatch_indistinguishable
              world_connected empty_world "s0" "bob" 9 2
              session_s0)
    as (H1 & H2 & _).
  - vm_compute. reflexivity.
  - vm_compute. discriminate.
  - vm_compute. reflexivity.
  - split; [exact H1 | exact H2].
Defined.

Lemma destroy_session_lookup (sid : string) (w : World) (s : TerminalSession) :
  _sessions w !! sid = Some s ->
  let w' := destroy_session sid w in
  let rest := sessions_of (user_id s) w ∖ {[sid]} in
  _sessions w' !! sid = None
  /\ _user_sessions w' !! user_id s
     = (if decide (rest = ∅) then None else Some rest)
  /\ (forall other, other ≠ sid -> _sessions w' !! other = _sessions w !! other)
  /\ (forall u, u ≠ user_id s ->
        _user_sessions w' !! u = _user_sessions w !! u).
Proof.
  intros Hs. unfold destroy_session. rewrite Hs. simpl.
  repeat split.
  - apply lookup_delete_eq.
  - destruct (decide (sessions_of (user_id s) w ∖ {[sid]} = ∅)).
    + apply lookup_delete_eq.
    + apply lookup_insert_eq.
  - intros other Hne. apply lookup_delete_ne. congruence.
  - intros u Hne.
    destruct (decide (sessions_of (user_id s) w ∖ {[sid]} = ∅)).
    + apply lookup_delete_ne. congruence.
    + apply lookup_insert_ne. congruence.
Qed.

(** C7.  A reconnect by the owner to a session whose PTY is no longer alive
    returns [None] and destroys the session: its id is gone from the session
    map and from the owner's index entry, and that entry is removed
    altogether when it has become empty.  Other sessions and other users'
    entries are untouched. *)
Theorem reconnect_dead_pty_destroys
  (w : World) (sid uid : string) (ws : nat) (now : Z) (s : TerminalSession)
  (Hs : _sessions w !! sid = Some s)
  (Howner : user_id s = uid)
  (Hdead : session_alive s w = false) :
  let '(r, w') := reconnect_session sid uid ws now w in
  let rest := sessions_of uid w ∖ {[sid]} in
  r = None
  /\ w' = destroy_session sid w
  /\ _sessions w' !! sid = None
  /\ (sid ∉ sessions_of uid w')
  /\ _user_sessions w' !! uid = (if decide (rest = ∅) then None else Some rest)
  /\ _user_sessions w' !! uid ≠ Some ∅
  /\ (forall other, other ≠ sid -> _sessions w' !! other = _sessions w !! other)
  /\ (forall u, u ≠ uid -> _user_sessions w' !! u = _user_sessions w !! u).
Proof.
  unfold reconnect_session. rewrite Hs.
  rewrite bool_decide_eq_true_2 by exact Howner.
  rewrite Hdead. simpl.
  destruct (destroy_session_lookup sid w s Hs) as (Hgone & Hindex & Hothers & Husers).
  rewrite Howner in Hindex, Husers.
  repeat split; try assumption.
  - unfold sessions_of at 1. rewrite Hindex.
    destruct (decide (sessions_of uid w ∖ {[sid]} = ∅)); simpl.
    + apply not_elem_of_empty.
    + apply not_elem_of_difference. right. apply elem_of_singleton. reflexivity.
  - rewrite Hindex.
    destruct (decide (sessions_of uid w ∖ {[sid]} = ∅)); congruence.
Qed.

(** ["alice"] comes back to ["s0"] after its shell has exited. *)
Lemma reconnect_dead_pty_destroys_witness :
  fst (reconnect_session "s0" "alice" 9 2 world_pty_dead) = None
  /\ _sessions (snd (reconnect_session "s0" "alice" 9 2 world_pty_dead))
       !! "s0" = None
  /\ _user_sessions (snd (reconnect_session "s0" "alice" 9 2 world_pty_dead))
       !! "alice" ≠ Some ∅.
Proof.
  assert (Hs : _sessions world_pty_dead !! "s0" = Some session_s0)
    by (vm_compute; reflexivity).
  assert (Howner : user_id session_s0 = "alice") by reflexivity.
  assert (Hdead : session_alive session_s0 world_pty_dead = false)
    by (vm_compute; reflexivity).
  pose proof (reconnect_dead_pty_destroys world_pty_dead "s0" "alice" 9 2
                session_s0 Hs Howner Hdead) as H.
  destruct (reconnect_session "s0" "alice" 9 2 world_pty_dead) as [r w'].
  destruct H as (Hr & _ & Hgone & _ & _ & Hpruned & _).
  simpl. split; [exact Hr | split; [exact Hgone | exact Hpruned]].
Defined.

(** A reconnect by the owner to a live session, spelled out. *)
Lemma reconnect_session_live
  (w : World) (sid uid : string) (ws : nat) (now : Z) (s : TerminalSession) :
  _sessions w !! sid = Some s ->
  user_id s = uid ->
  session_alive s w = true ->
  reconnect_session sid uid ws now w
  = (Some (touch now (set_connection s (Some ws) true)),
     mkWorld (<[sid := touch now (set_connection s (Some ws) true)]>
                (_sessions w))
             (_user_sessions w) (ptys w) (factory_calls w)
             (match websocket s with
              | Some old =>
                  if is_connected s
                  then socket_closes w ++ [(old, WS_CLOSE_SUPERSEDED)]
                  else socket_closes w
              | None => socket_closes w
              end)).
Proof.
  intros Hs Howner Halive. unfold reconnect_session. rewrite Hs.
  rewrite bool_decide_eq_true_2 by exact Howner.
  rewrite Halive. reflexivity.
Qed.

(** C9.  A reconnect by the owner to a live session binds the new socket,
    sets [is_connected], refreshes [last_activity] and keeps the replay
    buffer; when a socket was still bound and connected, exactly that socket
    is closed, with code 4000, which is not the code of an ordinary close.
    A second reconnect right after the first closes the first one's socket
    with code 4000 and leaves the second one's socket as the one bound. *)
Theorem reconnect_supersedes
  (w : World) (sid uid : string) (ws1 ws2 : nat) (now1 now2 : Z)
  (s : TerminalSession)
  (Hs : _sessions w !! sid = Some s)
  (Howner : user_id s = uid)
  (Halive : session_alive s w = true) :
  exists (s1 s2 : TerminalSession) (w1 w2 : World),
    reconnect_session sid uid ws1 now1 w = (Some s1, w1)
    /\ reconnect_session sid uid ws2 now2 w1 = (Some s2, w2)
    /\ (websocket s1 = Some ws1 /\ is_connected s1 = true
        /\ last_activity s1 = now1
        /\ output_buffer s1 = output_buffer s
        /\ _sessions w1 !! sid = Some s1)
    /\ (forall old, websocket s = Some old -> is_connected s = true ->
          socket_closes w1 = socket_closes w ++ [(old, WS_CLOSE_SUPERSEDED)])
    /\ (websocket s = None \/ is_connected s = false ->
          socket_closes w1 = socket_closes w)
    /\ (websocket s2 = Some ws2 /\ is_connected s2 = true
        /\ last_activity s2 = now2
        /\ output_buffer s2 = output_buffer s
        /\ _sessions w2 !! sid = Some s2)
    /\ socket_closes w2 = socket_closes w1 ++ [(ws1, WS_CLOSE_SUPERSEDED)]
    /\ WS_CLOSE_SUPERSEDED = 4000 /\ WS_CLOSE_SUPERSEDED ≠ WS_CLOSE_DEFAULT.
Proof.
  pose proof (reconnect_session_live w sid uid ws1 now1 s Hs Howner Halive)
    as H1.
  set (s1 := touch now1 (set_connection s (Some ws1) true)) in *.
  match type of H1 with _ = (_, ?x) => set (w1 := x) in * end.
  assert (Hs1 : _sessions w1 !! sid = Some s1) by apply lookup_insert_eq.
  assert (Halive1 : session_alive s1 w1 = true) by exact Halive.
  pose proof (reconnect_session_live w1 sid uid ws2 now2 s1 Hs1 Howner Halive1)
    as H2.
  exists s1, (touch now2 (set_connection s1 (Some ws2) true)), w1.
  eexists. split; [exact H1|]. split; [exact H2|].
  repeat split.
  - exact Hs1.
  - intros old Hold Hconn. unfold w1. cbn. rewrite Hold, Hconn. reflexivity.
  - intros [Hnone | Hdisc]; unfold w1; cbn.
    + rewrite Hnone. reflexivity.
    + rewrite Hdisc. destruct (websocket s); reflexivity.
  - cbn. apply lookup_insert_eq.
  - unfold WS_CLOSE_SUPERSEDED, WS_CLOSE_DEFAULT. lia.
Qed.

(** Two reconnects of ["alice"] to ["s0"], whose socket 7 is still bound:
    socket 7 and then socket 8 are closed with code 4000, socket 9 stays. *)
Lemma reconnect_supersedes_witness :
  let w1 := snd (reconnect_session "s0" "alice" 8 2 world_connected) in
  let '(r, w2) := reconnect_session "s0" "alice" 9 3 w1 in
  (websocket <$> r) = Some (Some 9%nat)
  /\ socket_closes w2 = [(7%nat, 4000); (8%nat, 4000)].
Proof.
  assert (Hs : _sessions world_connected !! "s0" = Some session_s0)
    by (vm_compute; reflexivity).
  assert (Howner : user_id session_s0 = "alice") by reflexivity.
  assert (Halive : session_alive session_s0 world_connected = true)
    by (vm_compute; reflexivity).
  destruct (reconnect_supersedes world_connected "s0" "alice" 8 9 2 3
              session_s0 Hs Howner Halive)
    as (s1 & s2 & w1 & w2 & H1 & H2 & _ & Hold & _ & (Hws & _) & Hcl & _).
  rewrite H1. simpl. rewrite H2. simpl. split.
  - rewrite Hws. reflexivity.
  - rewrite Hcl, (Hold 7%nat eq_refl eq_refl). reflexivity.
Defined.

(** A remark on what follows a take-over.  [disconnect_session] does not look
    at which socket is bound: when the handler of the superseded connection
    winds down and calls it, the session is left with no socket and
    [is_connected = False], although the newer connection is still there. *)
Remark disconnect_after_takeover
  (w : World) (sid uid : string) (ws : nat) (now later : Z)
  (s : TerminalSession) :
  _sessions w !! sid = Some s ->
  user_id s = uid ->
  session_alive s w = true ->
  exists s',
    _sessions (disconnect_session sid later
                 (snd (reconnect_session sid uid ws now w))) !! sid = Some s'
    /\ websocket s' = None /\ is_connected s' = false.
Proof.
  intros Hs Howner Halive.
  rewrite (reconnect_session_live w sid uid ws now s Hs Howner Halive).
  unfold disconnect_session. cbn [snd _sessions].
  rewrite lookup_insert_eq. cbn [_sessions].
  eexists. split; [apply lookup_insert_eq|]. split; reflexivity.
Qed.

End RegistryFacts.

(** ** Output buffer *)

Section OutputBufferFacts.
Import OutputBuffer.

Lemma send_combined_open (task : option Task) (ob : OutputBuffer) :
  _closed ob = false ->
  send_combined task ob
  = mkOutputBuffer [] (flush_interval ob) task false
      (match buffer ob with
       | [] => sent ob
       | _ :: _ => sent ob ++ [join (buffer ob)]
       end).
Proof.
  intros Hopen. unfold send_combined. rewrite Hopen.
  destruct (buffer ob); reflexivity.
Qed.

Lemma send_combined_snoc (task : option Task) (ob : OutputBuffer)
  (queued : list bytes) (data : bytes) :
  _closed ob = false ->
  buffer ob = queued ++ [data] ->
  send_combined task ob
  = mkOutputBuffer [] (flush_interval ob) task false
      (sent ob ++ [join (queued ++ [data])]).
Proof.
  intros Hopen Hbuf. rewrite send_combined_open by exact Hopen.
  rewrite Hbuf. destruct queued; reflexivity.
Qed.

(** C5, as amended.  On a buffer that has not been closed:
    - writing a chunk of at most 64 bytes flushes at once: whatever was
      queued, followed by the chunk, goes out as one frame, and a pending
      delayed flush is cancelled; the chunk goes out alone exactly when
      nothing was queued;
    - writing a larger chunk sends nothing, appends the chunk to the queue
      and, unless a flush task is already there, schedules one for one flush
      interval later;
    - a scheduled flush does nothing before its time and, once its time has
      come, sends everything queued at that point as one frame;
    - [flush()] forgets any pending delayed flush and sends the queue, if
      any, as one frame.
    The default flush interval is 8 ms. *)
Theorem output_buffer_write_policy
  (ob : OutputBuffer) (data : bytes) (now : Z)
  (Hopen : _closed ob = false) :
  (len data <= IMMEDIATE_MAX ->
     write data now ob
     = mkOutputBuffer [] (flush_interval ob) None false
         (sent ob ++ [join (buffer ob ++ [data])])
     /\ (buffer ob = [] -> sent (write data now ob) = sent ob ++ [data]))
  /\ (IMMEDIATE_MAX < len data ->
     write data now ob
     = mkOutputBuffer (buffer ob ++ [data]) (flush_interval ob)
         (match _flush_task ob with
          | None => Some (Sleeping (now + flush_interval ob))
          | Some t => Some t
          end)
         false (sent ob))
  /\ (forall wake t,
        _flush_task ob = Some (Sleeping wake) ->
        (t < wake -> timer_fires t ob = ob)
        /\ (wake <= t ->
            timer_fires t ob
            = mkOutputBuffer [] (flush_interval ob) None false
                (match buffer ob with
                 | [] => sent ob
                 | _ :: _ => sent ob ++ [join (buffer ob)]
                 end)))
  /\ flush ob
     = mkOutputBuffer [] (flush_interval ob) None false
         (match buffer ob with
          | [] => sent ob
          | _ :: _ => sent ob ++ [join (buffer ob)]
          end)
  /\ IMMEDIATE_MAX = 64 /\ DEFAULT_FLUSH_INTERVAL_MS = 8.
Proof.
  assert (Hsmall : len data <= IMMEDIATE_MAX ->
            write data now ob
            = mkOutputBuffer [] (flush_interval ob) None false
                (sent ob ++ [join (buffer ob ++ [data])])).
  { intros Hle. unfold write. rewrite Hopen.
    destruct (Z.leb_spec (len data) IMMEDIATE_MAX); [|lia].
    unfold flush.
    erewrite send_combined_snoc; reflexivity. }
  split; [|split; [|split; [|split; [|split; reflexivity]]]].
  - intros Hle. split; [exact (Hsmall Hle)|].
    intros Hempty. rewrite (Hsmall Hle), Hempty. cbn.
    unfold join. simpl. rewrite app_nil_r. reflexivity.
  - intros Hbig. unfold write. rewrite Hopen.
    destruct (Z.leb_spec (len data) IMMEDIATE_MAX); [lia|].
    cbn. destruct (_flush_task ob); reflexivity.
  - intros wake t Htask. unfold timer_fires. rewrite Htask. split.
    + intros Hearly. destruct (Z.leb_spec wake t); [lia|reflexivity].
    + intros Hdue. destruct (Z.leb_spec wake t); [|lia].
      unfold _delayed_flush. apply send_combined_open, Hopen.
  - unfold flush. apply send_combined_open, Hopen.
Qed.

(** A 65-byte chunk is queued at time 0; a one-byte chunk written at time 3
    goes out at once, in one frame with the queued chunk. *)
Lemma output_buffer_write_policy_witness :
  let ob := write (repeat x61 65) 0 (init DEFAULT_FLUSH_INTERVAL_MS) in
  _flush_task ob = Some (Sleeping 8)
  /\ sent ob = []
  /\ sent (write [x62] 3 ob) = [repeat x61 65 ++ [x62]].
Proof.
  intros ob.
  assert (Hopen : _closed ob = false) by reflexivity.
  destruct (output_buffer_write_policy ob [x62] 3 Hopen) as (Hsmall & _).
  split; [reflexivity|]. split; [reflexivity|].
  rewrite (proj1 (Hsmall ltac:(unfold len, IMMEDIATE_MAX; simpl; lia))).
  reflexivity.
Defined.

(** C5 as stated fails: a small chunk is not always sent on its own.  After
    a 65-byte chunk has been queued, a one-byte write sends a single frame
    of 66 bytes. *)
Lemma small_write_is_coalesced :
  ~ (forall (ob : OutputBuffer) (data : bytes) (now : Z),
       _closed ob = false ->
       len data <= IMMEDIATE_MAX ->
       sent (write data now ob) = sent ob ++ [data]).
Proof.
  intros Hall.
  specialize (Hall (write (repeat x61 65) 0 (init DEFAULT_FLUSH_INTERVAL_MS))
                   [x62] 3 eq_refl).
  assert (Hlen : len [x62] <= IMMEDIATE_MAX)
    by (unfold len, IMMEDIATE_MAX; simpl; lia).
  specialize (Hall Hlen). vm_compute in Hall. discriminate Hall.
Qed.

End OutputBufferFacts.

(** ** Fake PTY backend *)

Section FakePTYFacts.
Import FakePTY.

Lemma join_app (a b : list bytes) : join (a ++ b) = join a ++ join b.
Proof. unfold join. apply concat_app. Qed.

Lemma slice_bound_nonneg (n k : Z) :
  0 <= k -> k < n -> slice_bound n k = Z.to_nat k.
Proof.
  intros Hk Hn. unfold slice_bound.
  destruct (Z.ltb_spec k 0); lia.
Qed.

(** No byte is lost or reordered by one [read], whatever the size asked
    for. *)
Lemma read_preserves (size : Z) (b : FakePTYBackend) :
  fst (read size b) ++ join (_output_queue (snd (read size b)))
  = join (_output_queue b).
Proof.
  unfold read. destruct (_alive b); simpl; [|reflexivity].
  destruct (_output_queue b) as [|data rest] eqn:Hq; simpl;
    [rewrite Hq; reflexivity|].
  destruct (len data >? size); simpl; [|reflexivity].
  unfold join. simpl. rewrite app_assoc, slice_split. reflexivity.
Qed.

Lemma read_alive (size : Z) (b : FakePTYBackend) :
  _alive (snd (read size b)) = _alive b.
Proof.
  unfold read. destruct (_alive b) eqn:E; simpl; [|exact E].
  destruct (_output_queue b) as [|data rest]; simpl; [exact E|].
  destruct (len data >? size); simpl; exact E.
Qed.

Lemma read_at_most (size : Z) (b : FakePTYBackend) :
  0 <= size -> len (fst (read size b)) <= size.
Proof.
  intros Hsize. unfold read. destruct (_alive b); simpl; [|exact Hsize].
  destruct (_output_queue b) as [|data rest]; simpl; [exact Hsize|].
  destruct (Z.gtb_spec (len data) size); simpl.
  - apply slice_to_len, Hsize.
  - assumption.
Qed.

Lemma run_preserves (ops : list op) (b : FakePTYBackend) :
  let '(reads, injected, b') := run ops b in
  join reads ++ join (_output_queue b')
  = join (_output_queue b) ++ join injected.
Proof.
  revert b. induction ops as [|o ops IH]; intros b; simpl.
  - rewrite app_nil_r. reflexivity.
  - destruct o as [data|size].
    + specialize (IH (inject_output data b)).
      destruct (run ops (inject_output data b)) as [[reads injected] b'].
      rewrite IH. simpl. rewrite join_app, <- app_assoc.
      unfold join. simpl. rewrite app_nil_r. reflexivity.
    + pose proof (read_preserves size b) as Hread.
      destruct (read size b) as [data b1]. simpl in Hread.
      specialize (IH b1).
      destruct (run ops b1) as [[reads injected] b'].
      unfold join in *. simpl. rewrite <- app_assoc, IH, app_assoc, Hread.
      reflexivity.
Qed.

(** While the backend is alive, enough reads of a positive size drain the
    queue, and together they return its content. *)
Lemma read_n_drains (size : Z) (n : nat) (b : FakePTYBackend) :
  0 < size ->
  _alive b = true ->
  (Z.to_nat (total (_output_queue b)) + length (_output_queue b) <= n)%nat ->
  _output_queue (snd (read_n n size b)) = []
  /\ join (fst (read_n n size b)) = join (_output_queue b).
Proof.
  intros Hsize. revert b. induction n as [|n IH]; intros b Halive Hn.
  - simpl. destruct (_output_queue b); [split; reflexivity | simpl in Hn; lia].
  - simpl.
    pose proof (read_preserves size b) as Hread.
    pose proof (read_alive size b) as Ha.
    assert (Hless :
      (Z.to_nat (total (_output_queue (snd (read size b))))
       + length (_output_queue (snd (read size b))) <= n)%nat).
    { clear Hread Ha. unfold read. rewrite Halive. simpl.
      destruct (_output_queue b) as [|data rest] eqn:Hq.
      - simpl. rewrite Hq. simpl. lia.
      - simpl in Hn.
        pose proof (total_nonneg rest). pose proof (len_nonneg data).
        destruct (Z.gtb_spec (len data) size); simpl; [|lia].
        assert (len (slice_from size data) = len data - size).
        { unfold slice_from, len. rewrite length_skipn.
          fold (len data). rewrite slice_bound_nonneg by lia.
          unfold len in *. lia. }
        lia. }
    destruct (read size b) as [data b1]. simpl in *.
    rewrite Halive in Ha.
    destruct (IH b1 Ha Hless) as [Hq Hj].
    destruct (read_n n size b1) as [reads b']. simpl in *.
    split; [exact Hq|].
    unfold join in *. simpl. rewrite Hj. exact Hread.
Qed.

(** C10.  [read(size)], for a size that is not negative, returns at most
    [size] bytes: all of the oldest chunk when it is that short, else its
    first [size] bytes, the rest going back to the front of the queue; it
    returns nothing, and changes nothing, when the backend is not alive or
    the queue is empty.  What a read returns followed by what stays queued
    is what was queued before, so through any sequence of injections and
    reads the bytes read so far followed by the bytes still queued are the
    bytes queued at the start followed by the bytes injected, in order; and
    while the backend is alive, reads of a positive size eventually return
    everything. *)
Theorem fake_pty_read_no_loss
  (b : FakePTYBackend) (size : Z) (Hsize : 0 <= size) :
  len (fst (read size b)) <= size
  /\ fst (read size b) ++ join (_output_queue (snd (read size b)))
     = join (_output_queue b)
  /\ (forall head rest,
        _alive b = true -> _output_queue b = head :: rest ->
        read size b
        = if len head >? size
          then (firstn (Z.to_nat size) head,
                set_queue (skipn (Z.to_nat size) head :: rest) b)
          else (head, set_queue rest b))
  /\ (_alive b = false \/ _output_queue b = [] -> read size b = ([], b))
  /\ (forall ops : list op,
        let '(reads, injected, b') := run ops b in
        join reads ++ join (_output_queue b')
        = join (_output_queue b) ++ join injected)
  /\ (_alive b = true -> 0 < size ->
      exists n : nat,
        _output_queue (snd (read_n n size b)) = []
        /\ join (fst (read_n n size b)) = join (_output_queue b)).
Proof.
  split; [apply read_at_most, Hsize|].
  split; [apply read_preserves|].
  split; [|split; [|split]].
  - intros head rest Halive Hq. unfold read. rewrite Halive, Hq. simpl.
    destruct (Z.gtb_spec (len head) size); [|reflexivity].
    unfold slice_to, slice_from. rewrite slice_bound_nonneg by lia.
    reflexivity.
  - intros [Hdead | Hempty]; unfold read.
    + rewrite Hdead. reflexivity.
    + rewrite Hempty. destruct (_alive b); reflexivity.
  - intros ops. apply run_preserves.
  - intros Halive Hpos.
    exists (Z.to_nat (total (_output_queue b)) + length (_output_queue b))%nat.
    apply read_n_drains; [exact Hpos | exact Halive | lia].
Qed.

(** ["hello"] read two bytes at a time: ["he"], and ["llo"] stays queued. *)
Lemma fake_pty_read_no_loss_witness :
  len (fst (read 2 example_backend)) <= 2
  /\ read 2 example_backend
     = ([x68; x65], set_queue [[x6c; x6c; x6f]] example_backend).
Proof.
  assert (Hsize : 0 <= 2) by lia.
  destruct (fake_pty_read_no_loss example_backend 2 Hsize)
    as (Hmost & _ & Hhead & _).
  split; [exact Hmost|].
  exact (Hhead [x68; x65; x6c; x6c; x6f] [] eq_refl eq_refl).
Defined.

End FakePTYFacts.

(** ** Terminal input *)

Section InputPathFacts.
Import RateLimiter InputPath.
Context {R : Type} `{Arith R}.

(** The binary path: an oversize frame and a rate-limited frame are each
    answered with one error message and nothing is written; an accepted
    frame is written.  The handler always returns. *)
Lemma binary_input_policy (input_bytes : bytes) (now : R)
  (ctx : MessageContext R) :
  let tr := fst (_handle_binary_input input_bytes now ctx) in
  raises tr = false
  /\ (max_input_size ctx < len input_bytes ->
      tr = [SendJson "error" "Input too large"])
  /\ (len input_bytes <= max_input_size ctx ->
      fst (acquire (len input_bytes) now (rate_limiter ctx)) = false ->
      tr = [SendJson "error" "Rate limit exceeded"])
  /\ (len input_bytes <= max_input_size ctx ->
      fst (acquire (len input_bytes) now (rate_limiter ctx)) = true ->
      tr = [PtyWrite input_bytes; Touch]).
Proof.
  unfold _handle_binary_input.
  destruct (Z.gtb_spec (len input_bytes) (max_input_size ctx)).
  - simpl. repeat split; intros; try reflexivity; lia.
  - destruct (acquire (len input_bytes) now (rate_limiter ctx)) as [[|] rl];
      simpl; repeat split; intros; try reflexivity; try lia; discriminate.
Qed.

(** C4, where the code departs from it.  A JSON input that passes the size
    check and is then refused by the rate limiter is dropped without any
    message to the client, while the same bytes on the binary path are
    answered with the ["Rate limit exceeded"] error.  Neither path writes
    to the PTY. *)
Theorem json_input_rate_limited_silent
  (ctx : MessageContext R) (msg : gmap string text) (data : text)
  (input_bytes : bytes) (now : R)
  (Hdata : msg !! "data" = Some data)
  (Hnonempty : data ≠ [])
  (Hchars : Z.of_nat (length data) <= max_input_size ctx)
  (Hutf8 : utf8_encode data = Some input_bytes)
  (Hbytes : len input_bytes <= max_input_size ctx)
  (Hlimited : fst (acquire (len input_bytes) now (rate_limiter ctx)) = false) :
  fst (handle_input msg now ctx) = []
  /\ sent_to_client (fst (handle_input msg now ctx)) = []
  /\ written_to_pty (fst (handle_input msg now ctx)) = []
  /\ sent_to_client (fst (_handle_binary_input input_bytes now ctx))
     = [("error", "Rate limit exceeded")]
  /\ written_to_pty (fst (_handle_binary_input input_bytes now ctx)) = [].
Proof.
  assert (Hjson : fst (handle_input msg now ctx) = []).
  { unfold handle_input. rewrite Hdata. simpl.
    destruct (Z.gtb_spec (Z.of_nat (length data)) (max_input_size ctx)); [lia|].
    destruct data as [|c rest]; [congruence|].
    rewrite Hutf8.
    destruct (acquire (len input_bytes) now (rate_limiter ctx)) as [[|] rl];
      simpl in *; [discriminate | reflexivity]. }
  destruct (binary_input_policy input_bytes now ctx) as (_ & _ & Hbin & _).
  rewrite Hjson, (Hbin Hbytes Hlimited).
  repeat split.
Qed.

End InputPathFacts.

Section InputPathExamples.
Import RateLimiter InputPath.

(** The burst has just been used up; ["a"] arrives as a JSON input message
    and as a binary frame. *)
Lemma json_input_rate_limited_silent_witness :
  fst (handle_input input_message_a 0%Q (exhausted_context (R := Q))) = []
  /\ sent_to_client
       (fst (_handle_binary_input [x61] 0%Q (exhausted_context (R := Q))))
     = [("error", "Rate limit exceeded")].
Proof.
  assert (Hdata : input_message_a !! "data" = Some [97])
    by (vm_compute; reflexivity).
  assert (Hnonempty : [97] ≠ @nil Z) by discriminate.
  assert (Hchars : Z.of_nat (length [97])
                   <= max_input_size (exhausted_context (R := Q)))
    by (apply Z.leb_le; vm_compute; reflexivity).
  assert (Hutf8 : utf8_encode [97] = Some [x61]) by reflexivity.
  assert (Hbytes : len [x61] <= max_input_size (exhausted_context (R := Q)))
    by (apply Z.leb_le; vm_compute; reflexivity).
  assert (Hlimited :
    fst (acquire (len [x61]) 0%Q (rate_limiter (exhausted_context (R := Q))))
    = false) by (vm_compute; reflexivity).
  destruct (json_input_rate_limited_silent
              (exhausted_context (R := Q)) input_message_a [97] [x61] 0%Q
              Hdata Hnonempty Hchars Hutf8 Hbytes Hlimited)
    as (Hjson & _ & _ & Hbin & _).
  split; [exact Hjson | exact Hbin].
Defined.

(** The same on binary64, by evaluation. *)
Lemma json_input_rate_limited_binary64 :
  fst (handle_input input_message_a (of_int 0)
         (exhausted_context (R := PrimFloat.float))) = []
  /\ fst (_handle_binary_input [x61] (of_int 0)
            (exhausted_context (R := PrimFloat.float)))
     = [SendJson "error" "Rate limit exceeded"].
Proof. split; vm_compute; reflexivity. Qed.

End InputPathExamples.

(** * Further properties *)

#[local] Set Warnings "-clear-no-such-hyp".

(** ** Session registry: invariants *)

Section RegistryInvariants.
Import Registry RegistryRuns.

Lemma sessions_of_lookup (uid : string) (w : World) (ids : gset string) :
  _user_sessions w !! uid = Some ids -> sessions_of uid w = ids.
Proof. intros Hl. unfold sessions_of. rewrite Hl. reflexivity. Qed.

Lemma elem_of_sessions_of (uid sid : string) (w : World) :
  sid ∈ sessions_of uid w ->
  exists ids, _user_sessions w !! uid = Some ids /\ sid ∈ ids.
Proof.
  unfold sessions_of. destruct (_user_sessions w !! uid) as [ids|]; simpl.
  - intros Hin. exists ids. split; [reflexivity | exact Hin].
  - intros Hin. apply not_elem_of_empty in Hin. destruct Hin.
Qed.

Lemma destroy_session_consistent (sid : string) (w : World) :
  consistent w -> consistent (destroy_session sid w).
Proof.
  intros [Hs Hu]. unfold destroy_session.
  destruct (_sessions w !! sid) as [s|] eqn:Hsid; [|split; assumption].
  destruct (Hs sid s Hsid) as [_ Hlisted].
  set (rest := sessions_of (user_id s) w ∖ {[sid]}).
  split; cbn [_sessions _user_sessions].
  - intros sid' s' Hl.
    destruct (decide (sid' = sid)) as [->|Hne];
      [rewrite lookup_delete_eq in Hl; discriminate|].
    rewrite lookup_delete_ne in Hl by congruence.
    destruct (Hs sid' s' Hl) as [Hid Hin]. split; [exact Hid|].
    unfold sessions_of. cbn [_user_sessions].
    destruct (decide (user_id s' = user_id s)) as [Heq|Hother].
    + rewrite Heq in *.
      assert (Hin' : sid' ∈ rest) by (unfold rest; set_solver).
      destruct (decide (rest = ∅)) as [Hempty|_]; [set_solver|].
      rewrite lookup_insert_eq. exact Hin'.
    + destruct (decide (rest = ∅));
        [rewrite lookup_delete_ne by congruence
        |rewrite lookup_insert_ne by congruence]; exact Hin.
  - intros uid ids Hl.
    destruct (decide (uid = user_id s)) as [->|Hother].
    + destruct (decide (rest = ∅)) as [Hempty|Hnonempty];
        [rewrite lookup_delete_eq in Hl; discriminate|].
      rewrite lookup_insert_eq in Hl. injection Hl as <-.
      split; [exact Hnonempty|].
      intros sid' Hin.
      assert (Hne : sid' ≠ sid) by (unfold rest in Hin; set_solver).
      assert (Hold : sid' ∈ sessions_of (user_id s) w)
        by (unfold rest in Hin; set_solver).
      destruct (elem_of_sessions_of _ _ _ Hold) as (ids & Hids & Hin').
      destruct (Hu _ _ Hids) as [_ Hall].
      destruct (Hall sid' Hin') as (s' & Hs' & Hus').
      exists s'. split; [|exact Hus'].
      rewrite lookup_delete_ne by congruence. exact Hs'.
    + assert (Hl' : _user_sessions w !! uid = Some ids).
      { destruct (decide (rest = ∅));
          [rewrite lookup_delete_ne in Hl by congruence
          |rewrite lookup_insert_ne in Hl by congruence]; exact Hl. }
      destruct (Hu _ _ Hl') as [Hnonempty Hall].
      split; [exact Hnonempty|].
      intros sid' Hin. destruct (Hall sid' Hin) as (s' & Hs' & Hus').
      exists s'. split; [|exact Hus'].
      rewrite lookup_delete_ne; [exact Hs'|].
      intros <-. rewrite Hsid in Hs'. injection Hs' as <-. congruence.
Qed.

Lemma create_session_consistent (factory : PTYFactory) (uid : string)
  (shell : option string) (cols rows : Z) (uuid : string) (now : Z)
  (w : World) :
  consistent w ->
  _sessions w !! uuid = None ->
  consistent (snd (create_session factory uid shell cols rows uuid now w)).
Proof.
  intros Hc Hfresh. unfold create_session.
  destruct (_ >=? MAX_SESSIONS_PER_USER); [exact Hc|].
  destruct (_ >=? MAX_TOTAL_SESSIONS); [exact Hc|].
  destruct (factory shell cols rows (ptys w)) as [[pty|exc msg] heap];
    [|exact Hc].
  destruct Hc as [Hs Hu]. split; cbn [snd _sessions _user_sessions].
  - intros sid s Hl. unfold sessions_of. cbn [_user_sessions].
    destruct (decide (sid = uuid)) as [->|Hne].
    + rewrite lookup_insert_eq in Hl. injection Hl as <-. cbn.
      split; [reflexivity|]. rewrite lookup_insert_eq. cbn. set_solver.
    + rewrite lookup_insert_ne in Hl by congruence.
      destruct (Hs sid s Hl) as [Hid Hin]. split; [exact Hid|].
      destruct (decide (user_id s = uid)) as [<-|Hother].
      * rewrite lookup_insert_eq. cbn. set_solver.
      * rewrite lookup_insert_ne by congruence. exact Hin.
  - intros u ids Hl.
    destruct (decide (u = uid)) as [->|Hother].
    + rewrite lookup_insert_eq in Hl. injection Hl as <-.
      split; [set_solver|].
      intros sid [Hold | ->%elem_of_singleton]%elem_of_union.
      * destruct (elem_of_sessions_of _ _ _ Hold) as (ids & Hids & Hin).
        destruct (Hu _ _ Hids) as [_ Hall].
        destruct (Hall sid Hin) as (s & Hs' & Hus).
        exists s. split; [|exact Hus].
        rewrite lookup_insert_ne; [exact Hs'|]. congruence.
      * eexists. rewrite lookup_insert_eq. split; reflexivity.
    + rewrite lookup_insert_ne in Hl by congruence.
      destruct (Hu _ _ Hl) as [Hnonempty Hall].
      split; [exact Hnonempty|].
      intros sid Hin. destruct (Hall sid Hin) as (s & Hs' & Hus).
      exists s. split; [|exact Hus].
      rewrite lookup_insert_ne; [exact Hs'|]. congruence.
Qed.

(** Replacing a session by one with the same id and user keeps the
    dictionaries in agreement. *)
Lemma update_session_consistent (sid : string) (s s' : TerminalSession)
  (w : World) (heap : gmap nat SecurePTYManager)
  (calls : list (option string * Z * Z)) (closes : list (nat * Z)) :
  consistent w ->
  _sessions w !! sid = Some s ->
  session_id s' = session_id s -> user_id s' = user_id s ->
  consistent (mkWorld (<[sid := s']> (_sessions w)) (_user_sessions w)
                      heap calls closes).
Proof.
  intros [Hs Hu] Hsid Hid Huser. split; cbn [_sessions _user_sessions].
  - intros sid' t Hl. unfold sessions_of. cbn [_user_sessions].
    destruct (decide (sid' = sid)) as [->|Hne].
    + rewrite lookup_insert_eq in Hl. injection Hl as <-.
      rewrite Hid, Huser. exact (Hs sid s Hsid).
    + rewrite lookup_insert_ne in Hl by congruence. exact (Hs sid' t Hl).
  - intros uid ids Hl. destruct (Hu _ _ Hl) as [Hnonempty Hall].
    split; [exact Hnonempty|].
    intros sid' Hin. destruct (Hall sid' Hin) as (t & Ht & Hut).
    destruct (decide (sid' = sid)) as [->|Hne].
    + exists s'. rewrite lookup_insert_eq. split; [reflexivity|].
      rewrite Hsid in Ht. injection Ht as <-. congruence.
    + exists t. rewrite lookup_insert_ne by congruence. split; assumption.
Qed.

Lemma reconnect_session_consistent (sid uid : string) (ws : nat) (now : Z)
  (w : World) :
  consistent w -> consistent (snd (reconnect_session sid uid ws now w)).
Proof.
  intros Hc. unfold reconnect_session.
  destruct (_sessions w !! sid) as [s|] eqn:Hsid; [|exact Hc].
  destruct (bool_decide (user_id s = uid)); [|exact Hc]. cbn [negb].
  destruct (session_alive s w); cbn [negb snd].
  - eapply update_session_consistent; eauto.
  - apply destroy_session_consistent, Hc.
Qed.

Lemma disconnect_session_consistent (sid : string) (now : Z) (w : World) :
  consistent w -> consistent (disconnect_session sid now w).
Proof.
  intros Hc. unfold disconnect_session.
  destruct (_sessions w !! sid) as [s|] eqn:Hsid; [|exact Hc].
  eapply update_session_consistent; eauto.
Qed.

Lemma process_exits_consistent (h : nat) (w : World) :
  consistent w -> consistent (process_exits h w).
Proof. intros Hc. exact Hc. Qed.

Lemma cleanup_step_consistent (now : Z) (w : World)
  (item : string * TerminalSession) :
  consistent w -> consistent (cleanup_step now w item).
Proof.
  intros Hc. destruct item as [sid s]. unfold cleanup_step.
  repeat match goal with
         | |- consistent (if ?b then _ else _) => destruct b
         end;
    try exact Hc; apply destroy_session_consistent, Hc.
Qed.

Lemma fold_left_preserves {A B : Type} (P : A -> Prop) (f : A -> B -> A)
  (l : list B) (a : A) :
  (forall a b, P a -> P (f a b)) -> P a -> P (fold_left f l a).
Proof.
  intros Hstep. revert a. induction l as [|b l IH]; intros a Ha; simpl.
  - exact Ha.
  - apply IH, Hstep, Ha.
Qed.

Lemma empty_world_consistent : consistent empty_world.
Proof.
  split; cbn.
  - intros sid s Hl. rewrite lookup_empty in Hl. discriminate.
  - intros uid ids Hl. rewrite lookup_empty in Hl. discriminate.
Qed.

Lemma run_preserves_consistent
  (factory : PTYFactory) (calls : list call) (w : World) :
  consistent w -> ids_fresh factory calls w -> consistent (run factory calls w).
Proof.
  intros Hconsistent Hfresh. unfold run. revert w Hconsistent Hfresh.
  induction calls as [|c calls IH]; intros w Hc Hfresh; simpl; [exact Hc|].
  destruct Hfresh as [Hid Hrest].
  apply IH; [|exact Hrest].
  destruct c; cbn [step].
  - apply create_session_consistent; assumption.
  - apply reconnect_session_consistent, Hc.
  - apply disconnect_session_consistent, Hc.
  - apply destroy_session_consistent, Hc.
  - unfold _cleanup_stale_sessions.
    apply fold_left_preserves; [apply cleanup_step_consistent | exact Hc].
  - unfold stop. apply (fold_left_preserves consistent);
      [intros; apply destroy_session_consistent; assumption | exact Hc].
  - exact Hc.
Qed.


(** X1.  The session map and the user index stay in agreement through every
    sequence of registry calls and process exits, as long as every generated
    session id is new when it is generated: each session is filed under its
    own id and listed under its user, no user entry is empty, and every
    listed id is that of a session of that user. *)
Theorem registry_run_consistent
  (factory : PTYFactory) (calls : list call) (w : World)
  (Hconsistent : consistent w)
  (Hfresh : ids_fresh factory calls w) :
  consistent (run factory calls w).
Proof. exact (run_preserves_consistent factory calls w Hconsistent Hfresh). Qed.

Lemma registry_run_consistent_witness :
  consistent (run spawning_factory example_calls empty_world).
Proof.
  apply registry_run_consistent.
  - exact empty_world_consistent.
  - cbn [ids_fresh example_calls]. repeat split.
Defined.

Lemma destroy_session_sessions_of (sid uid : string) (w : World) :
  sessions_of uid (destroy_session sid w) ⊆ sessions_of uid w.
Proof.
  unfold destroy_session.
  destruct (_sessions w !! sid) as [s|]; [|reflexivity].
  unfold sessions_of at 1. cbn [_user_sessions].
  destruct (decide (uid = user_id s)) as [->|Hother].
  - destruct (decide (_ = ∅)).
    + rewrite lookup_delete_eq. cbn. set_solver.
    + rewrite lookup_insert_eq. cbn. set_solver.
  - destruct (decide (_ = ∅));
      [rewrite lookup_delete_ne by congruence
      |rewrite lookup_insert_ne by congruence]; reflexivity.
Qed.

Lemma destroy_session_within_limits (sid : string) (w : World) :
  within_limits w -> within_limits (destroy_session sid w).
Proof.
  intros [Huser Hall]. split.
  - intros uid. specialize (Huser uid).
    pose proof (subseteq_size _ _ (destroy_session_sessions_of sid uid w)).
    lia.
  - unfold destroy_session.
    destruct (_sessions w !! sid) as [s|] eqn:Hsid; [|exact Hall].
    cbn [_sessions]. rewrite map_size_delete, Hsid. unfold id in *. lia.
Qed.

Lemma update_session_within_limits (sid : string) (s s' : TerminalSession)
  (w : World) (heap : gmap nat SecurePTYManager)
  (calls : list (option string * Z * Z)) (closes : list (nat * Z)) :
  within_limits w ->
  _sessions w !! sid = Some s ->
  within_limits (mkWorld (<[sid := s']> (_sessions w)) (_user_sessions w)
                         heap calls closes).
Proof.
  intros [Huser Hall] Hsid. split.
  - exact Huser.
  - cbn [_sessions]. rewrite map_size_insert, Hsid. exact Hall.
Qed.

Lemma create_session_within_limits (factory : PTYFactory) (uid : string)
  (shell : option string) (cols rows : Z) (uuid : string) (now : Z)
  (w : World) :
  within_limits w ->
  within_limits (snd (create_session factory uid shell cols rows uuid now w)).
Proof.
  intros Hl. unfold create_session.
  destruct (Z.geb_spec (Z.of_nat (size (sessions_of uid w)))
              MAX_SESSIONS_PER_USER) as [|Huser]; [exact Hl|].
  destruct (Z.geb_spec (Z.of_nat (size (_sessions w)))
              MAX_TOTAL_SESSIONS) as [|Hall]; [exact Hl|].
  destruct (factory shell cols rows (ptys w)) as [[pty|exc msg] heap];
    [|exact Hl].
  destruct Hl as [Hu Ha]. split; cbn [snd _sessions _user_sessions].
  - intros u. unfold sessions_of at 1. cbn [_user_sessions].
    destruct (decide (u = uid)) as [->|Hother].
    + rewrite lookup_insert_eq. cbn.
      rewrite size_union_alt.
      match goal with
      | |- context [size (?X ∖ ?Y)] =>
          assert (size (X ∖ Y) <= 1)%nat
            by (etransitivity;
                [apply (subseteq_size _ X); set_solver
                |rewrite size_singleton; reflexivity])
      end.
      lia.
    + rewrite lookup_insert_ne by congruence. apply Hu.
  - rewrite map_size_insert.
    destruct (_sessions w !! uuid); unfold id; lia.
Qed.

Lemma step_within_limits (factory : PTYFactory) (w : World) (c : call) :
  within_limits w -> within_limits (step factory w c).
Proof.
  intros Hl. destruct c; cbn [step].
  - apply create_session_within_limits, Hl.
  - unfold reconnect_session.
    destruct (_sessions w !! sid) as [s|] eqn:Hsid; [|exact Hl].
    destruct (bool_decide (user_id s = uid)); [|exact Hl]. cbn [negb].
    destruct (session_alive s w); cbn [negb snd].
    + eapply update_session_within_limits; eauto.
    + apply destroy_session_within_limits, Hl.
  - unfold disconnect_session.
    destruct (_sessions w !! sid) as [s|] eqn:Hsid; [|exact Hl].
    eapply update_session_within_limits; eauto.
  - apply destroy_session_within_limits, Hl.
  - unfold _cleanup_stale_sessions.
    apply fold_left_preserves; [|exact Hl].
    intros w' [sid s] Hl'. unfold cleanup_step.
    repeat match goal with
           | |- within_limits (if ?b then _ else _) => destruct b
           end;
      try exact Hl'; apply destroy_session_within_limits, Hl'.
  - unfold stop. apply (fold_left_preserves within_limits); [|exact Hl].
    intros; apply destroy_session_within_limits; assumption.
  - exact Hl.
Qed.

(** X2.  The two capacity limits hold in every reachable state: starting
    from an empty registry, after any sequence of registry calls and process
    exits (fresh ids or not), no user holds more than
    [MAX_SESSIONS_PER_USER] sessions and the registry holds no more than
    [MAX_TOTAL_SESSIONS]. *)
Theorem registry_run_within_limits
  (factory : PTYFactory) (calls : list call) :
  let w := run factory calls empty_world in
  (forall uid, Z.of_nat (size (sessions_of uid w)) <= 10)
  /\ session_count w <= 100.
Proof.
  assert (Hl : within_limits (run factory calls empty_world)).
  { unfold run. apply fold_left_preserves.
    - intros w c. apply step_within_limits.
    - split; [intros uid|]; vm_compute; discriminate. }
  exact Hl.
Qed.

End RegistryInvariants.

(** ** Session registry: destroy, disconnect, sweep, shutdown *)

Section RegistryLifecycle.
Import Registry RegistryRuns.

Lemma destroy_session_lookup_any (sid sid' : string) (w : World) :
  _sessions (destroy_session sid w) !! sid'
  = if decide (sid' = sid) then None else _sessions w !! sid'.
Proof.
  unfold destroy_session.
  destruct (_sessions w !! sid) as [s|] eqn:Hsid; cbn [_sessions];
    destruct (decide (sid' = sid)) as [->|Hne]; try reflexivity.
  - apply lookup_delete_eq.
  - apply lookup_delete_ne. congruence.
  - exact Hsid.
Qed.

(** X3.  [destroy_session] is idempotent and does nothing at all for an id
    that is not registered; once a session has been destroyed, a reconnect
    to its id finds nothing, whoever asks. *)
Theorem destroy_session_idempotent (sid : string) (w : World) :
  destroy_session sid (destroy_session sid w) = destroy_session sid w
  /\ (_sessions w !! sid = None -> destroy_session sid w = w)
  /\ (forall uid ws now,
        reconnect_session sid uid ws now (destroy_session sid w)
        = (None, destroy_session sid w)).
Proof.
  assert (Hgone : _sessions (destroy_session sid w) !! sid = None).
  { rewrite destroy_session_lookup_any. destruct (decide (sid = sid)); congruence. }
  split; [|split].
  - unfold destroy_session at 1. rewrite Hgone. reflexivity.
  - intros Hnone. unfold destroy_session. rewrite Hnone. reflexivity.
  - intros uid ws now. unfold reconnect_session. rewrite Hgone. reflexivity.
Qed.

(** X4.  A disconnect keeps the session, its PTY and its replay buffer: the
    owner can reconnect afterwards and gets the session back with the buffer
    as it was, and no socket is closed on the way. *)
Theorem disconnect_then_reconnect
  (w : World) (sid uid : string) (ws : nat) (now later : Z)
  (s : TerminalSession)
  (Hs : _sessions w !! sid = Some s)
  (Howner : user_id s = uid)
  (Halive : session_alive s w = true) :
  exists (s' : TerminalSession) (w' : World),
    reconnect_session sid uid ws later (disconnect_session sid now w)
    = (Some s', w')
    /\ output_buffer s' = output_buffer s
    /\ output_buffer_size s' = output_buffer_size s
    /\ created_at s' = created_at s
    /\ websocket s' = Some ws /\ is_connected s' = true
    /\ _sessions w' !! sid = Some s'
    /\ socket_closes w' = socket_closes w
    /\ ptys w' = ptys w.
Proof.
  unfold disconnect_session. rewrite Hs.
  set (s1 := touch now (set_connection s None false)).
  match goal with |- context [reconnect_session _ _ _ _ ?x] => set (w1 := x) end.
  assert (Hs1 : _sessions w1 !! sid = Some s1) by apply lookup_insert_eq.
  assert (Halive1 : session_alive s1 w1 = true) by exact Halive.
  rewrite (reconnect_session_live w1 sid uid ws later s1 Hs1 Howner Halive1).
  eexists _, _. split; [reflexivity|].
  cbn. rewrite lookup_insert_eq. repeat split.
Qed.

Lemma disconnect_then_reconnect_witness :
  exists s' w',
    reconnect_session "s0" "alice" 9 3 (disconnect_session "s0" 2 world_connected)
    = (Some s', w')
    /\ websocket s' = Some 9%nat
    /\ socket_closes w' = [].
Proof.
  assert (Hs : _sessions world_connected !! "s0" = Some session_s0)
    by (vm_compute; reflexivity).
  assert (Howner : user_id session_s0 = "alice") by reflexivity.
  assert (Halive : session_alive session_s0 world_connected = true)
    by (vm_compute; reflexivity).
  destruct (disconnect_then_reconnect world_connected "s0" "alice" 9 2 3
              session_s0 Hs Howner Halive)
    as (s' & w' & Hr & _ & _ & _ & Hws & _ & _ & Hcl & _).
  exists s', w'. split; [exact Hr|]. split; [exact Hws|].
  rewrite Hcl. reflexivity.
Defined.

(** With both thresholds at 0, as shipped, one sweep step looks at the PTY
    only. *)
Lemma cleanup_step_liveness (now : Z) (w : World) (sid : string)
  (s : TerminalSession) :
  cleanup_step now w (sid, s)
  = if session_alive s w then w else destroy_session sid w.
Proof. unfold cleanup_step. destruct (session_alive s w); reflexivity. Qed.

Lemma close_dead (m : SecurePTYManager) : is_alive m = false -> close m = m.
Proof. destruct m as [sh c r a]. cbn. intros ->. reflexivity. Qed.

Lemma destroy_dead_ptys (sid : string) (s : TerminalSession) (w : World) :
  _sessions w !! sid = Some s ->
  session_alive s w = false ->
  ptys (destroy_session sid w) = ptys w.
Proof.
  intros Hs Hdead. unfold destroy_session. rewrite Hs. cbn [ptys].
  apply alter_id. intros m Hm. apply close_dead.
  unfold session_alive in Hdead. rewrite Hm in Hdead. exact Hdead.
Qed.

Lemma session_alive_ptys (s : TerminalSession) (w1 w2 : World) :
  ptys w1 = ptys w2 -> session_alive s w1 = session_alive s w2.
Proof. intros Heq. unfold session_alive. rewrite Heq. reflexivity. Qed.

Lemma cleanup_fold (now : Z) (items : list (string * TerminalSession))
  (w : World) :
  NoDup items.*1 ->
  (forall sid s, (sid, s) ∈ items -> _sessions w !! sid = Some s) ->
  let w' := fold_left (cleanup_step now) items w in
  ptys w' = ptys w
  /\ factory_calls w' = factory_calls w
  /\ forall sid,
       _sessions w' !! sid
       = match _sessions w !! sid with
         | Some s =>
             if decide (sid ∈ items.*1)
             then (if session_alive s w then Some s else None)
             else Some s
         | None => None
         end.
Proof.
  revert w. induction items as [|[k sk] items IH]; intros w Hnodup Hitems.
  - cbn. repeat split. intros sid.
    destruct (_sessions w !! sid); [|reflexivity].
    destruct (decide (sid ∈ [])) as [Hin|_]; [|reflexivity].
    apply elem_of_nil in Hin. destruct Hin.
  - cbn [fold_left fmap list_fmap fst] in *.
    apply NoDup_cons in Hnodup as [Hk Hnodup].
    assert (Hsk : _sessions w !! k = Some sk) by (apply Hitems; left).
    rewrite cleanup_step_liveness.
    destruct (session_alive sk w) eqn:Halive.
    + destruct (IH w Hnodup) as (Hp & Hf & Hl).
      { intros sid s Hin. apply Hitems. right. exact Hin. }
      split; [exact Hp|]. split; [exact Hf|].
      intros sid. rewrite Hl.
      destruct (_sessions w !! sid) as [s|] eqn:Hsid; [|reflexivity].
      destruct (decide (sid = k)) as [->|Hne].
      * rewrite Hsk in Hsid. injection Hsid as <-. rewrite Halive.
        destruct (decide (k ∈ items.*1)); [contradiction|].
        destruct (decide (k ∈ k :: items.*1)) as [_|Hn]; [reflexivity|].
        exfalso. apply Hn. left.
      * destruct (decide (sid ∈ items.*1)) as [Hin|Hnin];
          destruct (decide (sid ∈ k :: items.*1)) as [Hin'|Hnin'];
          try reflexivity.
        -- exfalso. apply Hnin'. right. exact Hin.
        -- apply elem_of_cons in Hin' as [?|?]; contradiction.
    + pose proof (destroy_dead_ptys k sk w Hsk Halive) as Hptys.
      destruct (IH (destroy_session k w) Hnodup) as (Hp & Hf & Hl).
      { intros sid s Hin. rewrite destroy_session_lookup_any.
        destruct (decide (sid = k)) as [->|_].
        - exfalso. apply Hk. apply list_elem_of_fmap. exists (k, s).
          split; [reflexivity | exact Hin].
        - apply Hitems. right. exact Hin. }
      split; [rewrite Hp; exact Hptys|].
      split; [rewrite Hf; unfold destroy_session; rewrite Hsk; reflexivity|].
      intros sid. rewrite Hl, destroy_session_lookup_any.
      destruct (decide (sid = k)) as [->|Hne].
      * rewrite Hsk, Halive.
        destruct (decide (k ∈ k :: items.*1)) as [_|Hn]; [reflexivity|].
        exfalso. apply Hn. left.
      * destruct (_sessions w !! sid) as [s|]; [|reflexivity].
        rewrite (session_alive_ptys s _ w Hptys).
        destruct (decide (sid ∈ items.*1)) as [Hin|Hnin];
          destruct (decide (sid ∈ k :: items.*1)) as [Hin'|Hnin'];
          try reflexivity.
        -- exfalso. apply Hnin'. right. exact Hin.
        -- apply elem_of_cons in Hin' as [?|?]; contradiction.
Qed.

(** X5.  The periodic sweep, run over the items of the session map in any
    order, removes exactly the sessions whose PTY is no longer alive: a
    session with a live PTY is kept as it is, however old or idle, and the
    PTYs themselves are left as they were. *)
Theorem cleanup_removes_exactly_dead
  (now : Z) (items : list (string * TerminalSession)) (w : World)
  (Hitems : items ≡ₚ map_to_list (_sessions w)) :
  let w' := _cleanup_stale_sessions now items w in
  (forall sid,
     _sessions w' !! sid
     = match _sessions w !! sid with
       | Some s => if session_alive s w then Some s else None
       | None => None
       end)
  /\ ptys w' = ptys w
  /\ factory_calls w' = factory_calls w.
Proof.
  assert (Hnodup : NoDup items.*1).
  { rewrite Hitems. apply NoDup_fst_map_to_list. }
  assert (Hin : forall sid s, (sid, s) ∈ items <-> _sessions w !! sid = Some s).
  { intros sid s. rewrite Hitems. apply elem_of_map_to_list. }
  destruct (cleanup_fold now items w Hnodup) as (Hp & Hf & Hl).
  { intros sid s. apply Hin. }
  split; [|split; assumption].
  intros sid. unfold _cleanup_stale_sessions. rewrite Hl.
  destruct (_sessions w !! sid) as [s|] eqn:Hsid; [|reflexivity].
  destruct (decide (sid ∈ items.*1)) as [_|Hn]; [reflexivity|].
  exfalso. apply Hn. apply list_elem_of_fmap. exists (sid, s).
  split; [reflexivity|]. apply Hin. exact Hsid.
Qed.

(** The sweep finds ["s0"] with its shell gone. *)
Lemma cleanup_removes_exactly_dead_witness :
  _sessions (_cleanup_stale_sessions 5 (map_to_list (_sessions world_pty_dead))
               world_pty_dead) !! "s0" = None.
Proof.
  assert (Hitems : map_to_list (_sessions world_pty_dead)
                   ≡ₚ map_to_list (_sessions world_pty_dead)) by reflexivity.
  destruct (cleanup_removes_exactly_dead 5 _ world_pty_dead Hitems)
    as (Hl & _).
  rewrite Hl. vm_compute. reflexivity.
Defined.

Lemma destroy_session_kills (sid : string) (s : TerminalSession) (w : World) :
  _sessions w !! sid = Some s ->
  session_alive s (destroy_session sid w) = false.
Proof.
  intros Hs. unfold destroy_session. rewrite Hs.
  unfold session_alive. cbn [ptys]. rewrite lookup_alter_eq.
  destruct (ptys w !! pty_manager s); reflexivity.
Qed.

Lemma destroy_session_stays_dead (sid : string) (s : TerminalSession)
  (w : World) :
  session_alive s w = false ->
  session_alive s (destroy_session sid w) = false.
Proof.
  intros Hdead. unfold destroy_session.
  destruct (_sessions w !! sid) as [t|]; [|exact Hdead].
  unfold session_alive in *. cbn [ptys].
  destruct (decide (pty_manager t = pty_manager s)) as [->|Hne].
  - rewrite lookup_alter_eq.
    destruct (ptys w !! pty_manager s); reflexivity.
  - rewrite lookup_alter_ne by exact Hne. exact Hdead.
Qed.

Lemma destroy_session_closes_kept (sid : string) (w : World) (c : nat * Z) :
  c ∈ socket_closes w -> c ∈ socket_closes (destroy_session sid w).
Proof.
  intros Hin. unfold destroy_session.
  destruct (_sessions w !! sid) as [t|]; [|exact Hin]. cbn [socket_closes].
  destruct (websocket t); [|exact Hin].
  apply elem_of_app. left. exact Hin.
Qed.

Lemma stop_lookup (keys : list string) (w : World) (sid : string) :
  _sessions (stop keys w) !! sid
  = if decide (sid ∈ keys) then None else _sessions w !! sid.
Proof.
  unfold stop. revert w. induction keys as [|k keys IH]; intros w; cbn.
  - destruct (decide (sid ∈ [])) as [Hin|_]; [|reflexivity].
    apply elem_of_nil in Hin. destruct Hin.
  - rewrite IH, destroy_session_lookup_any.
    destruct (decide (sid ∈ keys)) as [Hin|Hnin].
    + destruct (decide (sid ∈ k :: keys)) as [_|Hn]; [reflexivity|].
      exfalso. apply Hn. right. exact Hin.
    + destruct (decide (sid = k)) as [->|Hne].
      * destruct (decide (k ∈ k :: keys)) as [_|Hn]; [reflexivity|].
        exfalso. apply Hn. left.
      * destruct (decide (sid ∈ k :: keys)) as [Hin'|_]; [|reflexivity].
        apply elem_of_cons in Hin' as [?|?]; contradiction.
Qed.

Lemma stop_ends_sessions (keys : list string) (w : World) (sid : string)
  (s : TerminalSession) :
  _sessions w !! sid = Some s -> sid ∈ keys ->
  session_alive s (stop keys w) = false
  /\ (forall ws, websocket s = Some ws ->
        (ws, WS_CLOSE_DEFAULT) ∈ socket_closes (stop keys w)).
Proof.
  unfold stop. revert w. induction keys as [|k keys IH]; intros w Hs Hin.
  - apply elem_of_nil in Hin. destruct Hin.
  - cbn [fold_left].
    destruct (decide (sid = k)) as [<-|Hne].
    + split.
      * apply (fold_left_preserves
                 (fun w => session_alive s w = false)).
        -- intros w' k' Hd. cbv beta in *.
           apply destroy_session_stays_dead, Hd.
        -- apply destroy_session_kills, Hs.
      * intros ws Hws.
        apply (fold_left_preserves
                 (fun w => (ws, WS_CLOSE_DEFAULT) ∈ socket_closes w)).
        -- intros w' k' Hd. cbv beta in *.
           apply destroy_session_closes_kept, Hd.
        -- unfold destroy_session. rewrite Hs, Hws. cbn [socket_closes].
           apply elem_of_app. right. left.
    + apply IH.
      * rewrite destroy_session_lookup_any.
        destruct (decide (sid = k)); [contradiction | exact Hs].
      * apply elem_of_cons in Hin as [?|?]; [contradiction | assumption].
Qed.

(** X6.  Shutting the registry down over all its keys leaves no session
    behind: the session map is empty, so is the user index when the two
    agreed before, every session's PTY has been closed, and every socket
    that was bound to a session has been sent a close. *)
Theorem stop_destroys_all (keys : list string) (w : World)
  (Hkeys : forall sid, is_Some (_sessions w !! sid) -> sid ∈ keys) :
  _sessions (stop keys w) = ∅
  /\ (consistent w -> _user_sessions (stop keys w) = ∅)
  /\ (forall sid s, _sessions w !! sid = Some s ->
        session_alive s (stop keys w) = false
        /\ forall ws, websocket s = Some ws ->
             (ws, WS_CLOSE_DEFAULT) ∈ socket_closes (stop keys w)).
Proof.
  assert (Hempty : _sessions (stop keys w) = ∅).
  { apply map_empty. intros sid. rewrite stop_lookup.
    destruct (decide (sid ∈ keys)) as [_|Hn]; [reflexivity|].
    destruct (_sessions w !! sid) eqn:Hsid; [|reflexivity].
    exfalso. apply Hn, Hkeys. rewrite Hsid. eexists. reflexivity. }
  split; [exact Hempty|]. split.
  - intros Hc.
    assert (Hc' : consistent (stop keys w)).
    { unfold stop. apply (fold_left_preserves consistent); [|exact Hc].
      intros; apply destroy_session_consistent; assumption. }
    destruct Hc' as [_ Hu].
    apply map_empty. intros uid.
    destruct (_user_sessions (stop keys w) !! uid) as [ids|] eqn:Hl;
      [|reflexivity].
    destruct (Hu uid ids Hl) as [Hnonempty Hall].
    exfalso. apply Hnonempty. apply set_eq. intros sid. split.
    + intros Hin. destruct (Hall sid Hin) as (s & Hs & _).
      rewrite Hempty, lookup_empty in Hs. discriminate.
    + intros Hin. apply not_elem_of_empty in Hin. destruct Hin.
  - intros sid s Hs. apply (stop_ends_sessions keys w sid s Hs).
    apply Hkeys. rewrite Hs. eexists. reflexivity.
Qed.

Lemma stop_destroys_all_witness :
  _sessions (stop ["s0"] world_connected) = ∅
  /\ (7%nat, 1000) ∈ socket_closes (stop ["s0"] world_connected).
Proof.
  assert (Hkeys : forall sid,
            is_Some (_sessions world_connected !! sid) -> sid ∈ ["s0"]).
  { intros sid [s Hs]. destruct (decide (sid = "s0")) as [->|Hne]; [left|].
    exfalso.
    assert (Hl : _sessions world_connected
                 = <["s0" := session_s0]> ∅) by (vm_compute; reflexivity).
    rewrite Hl, lookup_insert_ne, lookup_empty in Hs by congruence.
    discriminate. }
  destruct (stop_destroys_all ["s0"] world_connected Hkeys)
    as (Hempty & _ & Hall).
  split; [exact Hempty|].
  assert (Hs : _sessions world_connected !! "s0" = Some session_s0)
    by (vm_compute; reflexivity).
  exact (proj2 (Hall "s0" session_s0 Hs) 7%nat eq_refl).
Defined.

Lemma length_omap_total {A B : Type} (f : A -> option B) (l : list A) :
  (forall x, x ∈ l -> is_Some (f x)) -> length (omap f l) = length l.
Proof.
  induction l as [|x l IH]; intros Hall; cbn; [reflexivity|].
  destruct (Hall x) as [y Hy]; [left|]. rewrite Hy. cbn.
  rewrite IH; [reflexivity|]. intros z Hz. apply Hall. right. exact Hz.
Qed.

(** X7.  When the two dictionaries agree, [get_user_sessions] returns
    exactly the registered sessions of the user, each once: a session is in
    the result if and only if it is registered under its id and belongs to
    the user, and the result is as long as the user's index entry is
    large. *)
Theorem get_user_sessions_exact (uid : string) (w : World)
  (Hconsistent : consistent w) :
  (forall s, s ∈ get_user_sessions uid w
             <-> _sessions w !! session_id s = Some s /\ user_id s = uid)
  /\ length (get_user_sessions uid w) = size (sessions_of uid w).
Proof.
  destruct Hconsistent as [Hs Hu].
  assert (Hlisted : forall sid, sid ∈ sessions_of uid w ->
            exists s, _sessions w !! sid = Some s /\ user_id s = uid).
  { intros sid Hin.
    destruct (elem_of_sessions_of _ _ _ Hin) as (ids & Hids & Hin').
    destruct (Hu _ _ Hids) as [_ Hall]. exact (Hall sid Hin'). }
  split.
  - intros s. unfold get_user_sessions. rewrite list_elem_of_omap. split.
    + intros (sid & Hin & Hl). apply elem_of_elements in Hin.
      destruct (Hs sid s Hl) as [Hid _].
      destruct (Hlisted sid Hin) as (s' & Hs' & Hus').
      rewrite Hl in Hs'. injection Hs' as <-.
      rewrite Hid. split; assumption.
    + intros [Hl Huser]. exists (session_id s). split; [|exact Hl].
      apply elem_of_elements.
      destruct (Hs _ _ Hl) as [_ Hin]. rewrite Huser in Hin. exact Hin.
  - unfold get_user_sessions. rewrite length_omap_total.
    + reflexivity.
    + intros sid Hin. apply elem_of_elements in Hin.
      destruct (Hlisted sid Hin) as (s & Hl & _). rewrite Hl. eexists.
      reflexivity.
Qed.

Lemma get_user_sessions_exact_witness :
  length (get_user_sessions "alice" world_connected) = 1%nat
  /\ (session_s0 ∈ get_user_sessions "alice" world_connected).
Proof.
  assert (Hrun : world_connected
                 = run spawning_factory
                     [CreateSession "alice" None 120 30 "s0" 0;
                      ReconnectSession "s0" "alice" 7 1] empty_world)
    by (vm_compute; reflexivity).
  assert (Hc : consistent world_connected).
  { rewrite Hrun. apply run_preserves_consistent.
    - exact empty_world_consistent.
    - cbn [ids_fresh]. repeat split. }
  destruct (get_user_sessions_exact "alice" world_connected Hc) as [Hmem Hlen].
  split.
  - rewrite Hlen. vm_compute. reflexivity.
  - apply Hmem. split; [vm_compute; reflexivity | reflexivity].
Defined.

End RegistryLifecycle.

(** ** Replay buffer: what a snapshot is made of *)

Section ReplayBufferMore.
Import ReplayBuffer.

Lemma take_recent_prefix (cap : Z) (l : list bytes) :
  exists rest, l = take_recent cap l ++ rest.
Proof.
  revert cap. induction l as [|x l IH]; intros cap; cbn.
  - exists []. reflexivity.
  - destruct (len x <=? cap).
    + destruct (IH (cap - len x)) as [rest Hrest].
      exists rest. cbn. rewrite <- Hrest. reflexivity.
    + exists (x :: l). reflexivity.
Qed.

Lemma most_recent_fitting_suffix (cap : Z) (l : list bytes) :
  exists dropped, l = dropped ++ most_recent_fitting cap l.
Proof.
  unfold most_recent_fitting.
  destruct (take_recent_prefix cap (rev l)) as [rest Hrest].
  exists (rev rest).
  rewrite <- rev_app_distr, <- Hrest, rev_involutive. reflexivity.
Qed.

Lemma since_last_clear_suffix (chunks : list bytes) :
  exists before, chunks = before ++ since_last_clear chunks.
Proof.
  induction chunks as [|c rest IH]; cbn.
  - exists []. reflexivity.
  - destruct (existsb (bytes_in ED2) rest).
    + destruct IH as [before Hbefore]. exists (c :: before).
      cbn. rewrite <- Hbefore. reflexivity.
    + exists []. reflexivity.
Qed.

(** X8.  A snapshot is always a tail of the output: after any sequence of
    appends on a fresh buffer, the bytes appended are some dropped bytes
    followed by exactly the snapshot.  Nothing is reordered, repeated or
    made up. *)
Theorem replay_snapshot_is_suffix
  (chunks : list bytes) (s0 : TerminalSession)
  (Hbuf : output_buffer s0 = []) (Hsize : output_buffer_size s0 = 0) :
  exists dropped : bytes,
    join chunks = dropped ++ get_buffered_output (appends chunks s0).
Proof.
  destruct (appends_cap_invariant OUTPUT_BUFFER_MAX_BYTES chunks s0 Hbuf Hsize)
    as [Hkept _].
  unfold get_buffered_output, appends. rewrite Hkept.
  destruct (since_last_clear_suffix chunks) as [before Hbefore].
  destruct (most_recent_fitting_suffix OUTPUT_BUFFER_MAX_BYTES
              (since_last_clear chunks)) as [dropped Hdropped].
  exists (join (before ++ dropped)).
  rewrite Hbefore at 1. rewrite Hdropped at 1.
  unfold join. rewrite !concat_app, app_assoc. reflexivity.
Qed.

Lemma replay_snapshot_is_suffix_witness :
  exists dropped : bytes,
    join [[x41]; ED2 ++ [x62]; [x63]]
    = dropped ++ get_buffered_output
                   (appends [[x41]; ED2 ++ [x62]; [x63]]
                      (new_session "s1" "alice" 0 "bash" 0)).
Proof.
  exact (replay_snapshot_is_suffix [[x41]; ED2 ++ [x62]; [x63]]
           (new_session "s1" "alice" 0 "bash" 0) eq_refl eq_refl).
Defined.

(** X9.  On a buffer whose running size is exact, the chunk just appended
    is the last one held whenever it fits the cap on its own; a chunk larger
    than the cap leaves the buffer empty, earlier output included. *)
Theorem add_to_buffer_newest
  (s : TerminalSession) (data : bytes)
  (Hexact : output_buffer_size s = total (output_buffer s)) :
  (len data <= OUTPUT_BUFFER_MAX_BYTES ->
   exists older, output_buffer (add_to_buffer data s) = older ++ [data])
  /\ (OUTPUT_BUFFER_MAX_BYTES < len data ->
      output_buffer (add_to_buffer data s) = []
      /\ output_buffer_size (add_to_buffer data s) = 0).
Proof.
  assert (Hshape : exists buf0,
            add_to_buffer data s
            = set_buffer s
                (most_recent_fitting OUTPUT_BUFFER_MAX_BYTES (buf0 ++ [data]))
                (total (most_recent_fitting OUTPUT_BUFFER_MAX_BYTES
                          (buf0 ++ [data])))).
  { unfold add_to_buffer, add_to_buffer_cap.
    destruct (bytes_in ED2 data).
    - exists []. replace (0 + len data) with (total ([] ++ [data]))
        by (cbn; lia).
      rewrite trim_most_recent. reflexivity.
    - exists (output_buffer s). rewrite Hexact.
      replace (total (output_buffer s) + len data)
        with (total (output_buffer s ++ [data]))
        by (rewrite total_app; cbn; lia).
      rewrite trim_most_recent. reflexivity. }
  destruct Hshape as [buf0 ->]. cbn [output_buffer output_buffer_size set_buffer].
  unfold most_recent_fitting. rewrite rev_app_distr. cbn [rev app take_recent].
  split; intros Hlen.
  - destruct (Z.leb_spec (len data) OUTPUT_BUFFER_MAX_BYTES); [|lia].
    cbn [rev]. eexists. reflexivity.
  - destruct (Z.leb_spec (len data) OUTPUT_BUFFER_MAX_BYTES); [lia|].
    split; reflexivity.
Qed.

Lemma add_to_buffer_newest_witness :
  exists older,
    output_buffer (add_to_buffer [x62]
                     (add_to_buffer [x41] (new_session "s1" "alice" 0 "bash" 0)))
    = older ++ [[x62]].
Proof.
  apply (proj1 (add_to_buffer_newest
                  (add_to_buffer [x41] (new_session "s1" "alice" 0 "bash" 0))
                  [x62] eq_refl)).
  vm_compute. discriminate.
Defined.

End ReplayBufferMore.

(** ** Terminal input: frames the bucket can never admit *)

Section InputAboveBurst.
Import RateLimiter InputPath.

Lemma ltb_leb (x y : float) :
  PrimFloat.ltb x y = true -> PrimFloat.leb x y = true.
Proof.
  rewrite FloatAxioms.ltb_spec, FloatAxioms.leb_spec. unfold SFltb, SFleb.
  destruct (SFcompare (Prim2SF x) (Prim2SF y)) as [[]|]; congruence.
Qed.

(** Converting the ints up to [MAX_INPUT_SIZE] to binary64 keeps them in
    order: each is below its successor. *)
Lemma of_int_succ (k : Z) :
  0 <= k < MAX_INPUT_SIZE ->
  PrimFloat.ltb (of_int k) (of_int (k + 1)) = true.
Proof.
  intros Hk.
  assert (Hall : forallb
            (fun i => PrimFloat.ltb (of_int (Z.of_nat i))
                        (of_int (Z.of_nat i + 1)))
            (seq 0 (Z.to_nat MAX_INPUT_SIZE)) = true)
    by (vm_compute; reflexivity).
  rewrite forallb_forall in Hall.
  specialize (Hall (Z.to_nat k)).
  rewrite Z2Nat.id in Hall by lia.
  apply Hall. apply in_seq. unfold MAX_INPUT_SIZE in *. lia.
Qed.

Lemma of_int_lt (a b : Z) :
  0 <= a -> a < b -> b <= MAX_INPUT_SIZE ->
  PrimFloat.ltb (of_int a) (of_int b) = true.
Proof.
  intros Ha Hab Hb.
  replace b with (a + 1 + Z.of_nat (Z.to_nat (b - a - 1))) in * by lia.
  induction (Z.to_nat (b - a - 1)) as [|d IH].
  - rewrite Z.add_0_r. apply of_int_succ. lia.
  - replace (a + 1 + Z.of_nat (S d)) with (a + 1 + Z.of_nat d + 1) in * by lia.
    eapply ltb_leb_trans; [apply IH; lia|].
    apply ltb_leb, of_int_succ. lia.
Qed.

(** A request for more tokens than [burst], as binary64 compares them, is
    never granted. *)
Lemma acquire_above_burst (rl : RateLimiter float) (n : Z) (now : float) :
  lt (of_int (burst rl)) (of_int n) = true ->
  fst (acquire n now rl) = false.
Proof.
  intros Habove. unfold acquire.
  destruct (ge (refilled now rl) (of_int n)) eqn:E; [|reflexivity].
  exfalso. cbn [ge lt Arith_binary64] in *.
  pose proof (ltb_leb_trans _ _ _ Habove E) as Hlt.
  pose proof (refilled_capped rl now) as Hcap.
  cbn [lt Arith_binary64] in Hcap. congruence.
Qed.

(** X12.  In binary64, as the limiter computes: a request for more tokens
    than [burst] is never granted, whatever the state of the limiter and
    however long the caller waits; so a binary frame that passes the size
    check but is longer than [burst] is always answered with the rate-limit
    error, and nothing is written.  This holds for every size limit up to
    [MAX_INPUT_SIZE]; with the defaults this is every frame of 501 to 4096
    bytes. *)
Theorem frame_above_burst_rejected
  (ctx : MessageContext float) (input_bytes : bytes) (now : float)
  (Hsize : len input_bytes <= max_input_size ctx)
  (Hmax : max_input_size ctx <= MAX_INPUT_SIZE)
  (Hpos : 0 <= burst (rate_limiter ctx))
  (Hburst : burst (rate_limiter ctx) < len input_bytes) :
  fst (acquire (len input_bytes) now (rate_limiter ctx)) = false
  /\ fst (_handle_binary_input input_bytes now ctx)
     = [SendJson "error" "Rate limit exceeded"]
  /\ burst (rate_limiter (snd (_handle_binary_input input_bytes now ctx)))
     = burst (rate_limiter ctx)
  /\ max_input_size (snd (_handle_binary_input input_bytes now ctx))
     = max_input_size ctx.
Proof.
  assert (Hfail : fst (acquire (len input_bytes) now (rate_limiter ctx)) = false).
  { apply acquire_above_burst. cbn [lt Arith_binary64].
    apply of_int_lt; lia. }
  split; [exact Hfail|].
  unfold _handle_binary_input.
  destruct (Z.gtb_spec (len input_bytes) (max_input_size ctx)); [lia|].
  unfold acquire in *.
  destruct (ge (refilled now (rate_limiter ctx)) (of_int (len input_bytes)));
    [discriminate|].
  repeat split.
Qed.

(** A frame of 501 bytes, a thousand seconds after the limiter was
    created. *)
Lemma frame_above_burst_rejected_witness :
  fst (_handle_binary_input (repeat x61 501) 1000%float
         (new_context 0%float))
  = [SendJson "error" "Rate limit exceeded"].
Proof.
  apply (frame_above_burst_rejected (new_context 0%float) (repeat x61 501)
           1000%float).
  - apply Z.leb_le. vm_compute. reflexivity.
  - apply Z.leb_le. vm_compute. reflexivity.
  - apply Z.leb_le. vm_compute. reflexivity.
  - apply Z.ltb_lt. vm_compute. reflexivity.
Defined.

End InputAboveBurst.

(** ** Output buffer: order, loss and closing *)

Section OutputBufferRunsFacts.
Import OutputBuffer OutputBufferRuns.

(** The bytes handed to the socket so far followed by the bytes still
    queued. *)
Lemma send_combined_stream (task : option Task) (ob : OutputBuffer) :
  _closed ob = false ->
  join (sent (send_combined task ob)) ++ join (buffer (send_combined task ob))
  = join (sent ob) ++ join (buffer ob).
Proof.
  intros Hopen. rewrite send_combined_open by exact Hopen. cbn.
  destruct (buffer ob) as [|c rest]; [reflexivity|].
  rewrite join_app. unfold join at 2. cbn [concat].
  rewrite !app_nil_r. reflexivity.
Qed.

Lemma send_combined_closed_flag (task : option Task) (ob : OutputBuffer) :
  _closed (send_combined task ob) = _closed ob.
Proof.
  unfold send_combined. destruct (buffer ob); [reflexivity|].
  destruct (_closed ob) eqn:E; cbn; congruence.
Qed.

Lemma written_cons (e : event) (events : list event) :
  written (e :: events) = written [e] ++ written events.
Proof. unfold written. cbn. rewrite app_nil_r. reflexivity. Qed.

Lemma apply_event_open (ob : OutputBuffer) (e : event) :
  is_close e = false -> _closed ob = false ->
  _closed (apply_event ob e) = false
  /\ join (sent (apply_event ob e)) ++ join (buffer (apply_event ob e))
     = join (sent ob) ++ join (buffer ob) ++ join (written [e]).
Proof.
  intros Hnc Hopen. destruct e as [data now| |now|]; cbn [apply_event written flat_map];
    try discriminate.
  - unfold write. rewrite Hopen.
    set (ob1 := mkOutputBuffer (buffer ob ++ [data]) (flush_interval ob)
                  (_flush_task ob) false (sent ob)).
    assert (Hopen1 : _closed ob1 = false) by reflexivity.
    assert (Hstream : join (sent ob1) ++ join (buffer ob1)
                      = join (sent ob) ++ join (buffer ob) ++ join ([data] ++ [])).
    { cbn. rewrite join_app. reflexivity. }
    destruct (len data <=? IMMEDIATE_MAX).
    + unfold flush. rewrite send_combined_closed_flag.
      rewrite send_combined_stream by exact Hopen1.
      split; [exact Hopen1 | exact Hstream].
    + destruct (_flush_task ob1); (split; [exact Hopen1 | exact Hstream]).
  - unfold flush. rewrite send_combined_closed_flag.
    rewrite send_combined_stream by exact Hopen.
    split; [exact Hopen|].
    change (join []) with (@nil byte). rewrite !app_nil_r. reflexivity.
  - assert (Hnil : join (sent ob) ++ join (buffer ob)
                   = join (sent ob) ++ join (buffer ob) ++ join [])
      by (change (join []) with (@nil byte); rewrite !app_nil_r; reflexivity).
    unfold timer_fires.
    destruct (_flush_task ob) as [[wake|]|]; try (split; [exact Hopen | exact Hnil]).
    destruct (wake <=? now); [|split; [exact Hopen | exact Hnil]].
    unfold _delayed_flush. rewrite send_combined_closed_flag.
    rewrite send_combined_stream by exact Hopen.
    split; [exact Hopen | exact Hnil].
Qed.

(** X14.  On a buffer that is not closed, through any sequence of writes,
    flushes and timer wake-ups, the bytes handed to the socket followed by
    the bytes still queued are the bytes that were there before followed by
    the bytes written, in the order written: nothing is lost, repeated or
    reordered. *)
Theorem output_buffer_in_order
  (events : list event) (ob : OutputBuffer)
  (Hopen : _closed ob = false)
  (Hnoclose : forallb (fun e => negb (is_close e)) events = true) :
  join (sent (run events ob)) ++ join (buffer (run events ob))
  = join (sent ob) ++ join (buffer ob) ++ join (written events).
Proof.
  unfold run. revert ob Hopen Hnoclose.
  induction events as [|e events IH]; intros ob Hopen Hnoclose.
  - cbn [fold_left written flat_map].
    change (join []) with (@nil byte). rewrite !app_nil_r. reflexivity.
  - cbn [forallb] in Hnoclose. apply andb_true_iff in Hnoclose as [He Hrest].
    apply negb_true_iff in He.
    destruct (apply_event_open ob e He Hopen) as [Hopen' Hstep].
    cbn [fold_left]. rewrite (IH _ Hopen' Hrest), app_assoc, Hstep.
    rewrite (written_cons e events), join_app, <- !app_assoc. reflexivity.
Qed.

Lemma output_buffer_in_order_witness :
  let events := [Write (repeat x61 65) 0; Write [x62] 3; Write (repeat x63 70) 4;
                 TimerFires 5] in
  join (sent (run events (init DEFAULT_FLUSH_INTERVAL_MS)))
  ++ join (buffer (run events (init DEFAULT_FLUSH_INTERVAL_MS)))
  = repeat x61 65 ++ [x62] ++ repeat x63 70.
Proof.
  intros events.
  rewrite (output_buffer_in_order events (init DEFAULT_FLUSH_INTERVAL_MS)
             eq_refl eq_refl).
  vm_compute. reflexivity.
Defined.

Lemma apply_event_closed (ob : OutputBuffer) (e : event) :
  _closed ob = true ->
  _closed (apply_event ob e) = true
  /\ sent (apply_event ob e) = sent ob
  /\ buffer (apply_event ob e) = buffer ob.
Proof.
  intros Hclosed.
  assert (Hsend : forall task,
            _closed (send_combined task ob) = true
            /\ sent (send_combined task ob) = sent ob
            /\ buffer (send_combined task ob) = buffer ob).
  { intros task. unfold send_combined. rewrite Hclosed.
    destruct (buffer ob); cbn; repeat split. }
  destruct e as [data now| |now|]; cbn [apply_event].
  - unfold write. rewrite Hclosed. repeat split; assumption.
  - apply Hsend.
  - unfold timer_fires.
    destruct (_flush_task ob) as [[wake|]|]; try (repeat split; assumption).
    destruct (wake <=? now); [apply Hsend | repeat split; assumption].
  - cbn. repeat split.
Qed.

(** X15.  Closing is final and silent: once [close()] has been called, no
    sequence of writes, flushes and timer wake-ups hands anything more to
    the socket, and what was queued at that moment stays queued for good. *)
Theorem output_buffer_closed_silent (events : list event) (ob : OutputBuffer) :
  sent (run events (close ob)) = sent ob
  /\ buffer (run events (close ob)) = buffer ob
  /\ _closed (run events (close ob)) = true.
Proof.
  assert (Hgen : forall ob', _closed ob' = true ->
            sent (run events ob') = sent ob'
            /\ buffer (run events ob') = buffer ob'
            /\ _closed (run events ob') = true).
  { unfold run. induction events as [|e events IH]; intros ob' Hclosed.
    - cbn. repeat split. exact Hclosed.
    - cbn [fold_left].
      destruct (apply_event_closed ob' e Hclosed) as (Hc & Hs & Hb).
      destruct (IH _ Hc) as (Hs' & Hb' & Hc').
      rewrite Hs', Hb', Hs, Hb. repeat split. exact Hc'. }
  exact (Hgen (close ob) eq_refl).
Qed.

End OutputBufferRunsFacts.

(** ** Output buffer: a write while the delayed flush is sending *)

Section OutputBufferSendFacts.
Import OutputBuffer OutputBufferSend.

(** With nothing run in between, the two halves of the body are
    [_delayed_flush]. *)
Lemma delayed_flush_with_nothing (ob : OutputBuffer) :
  delayed_flush_with (fun ob1 => ob1) ob = _delayed_flush ob.
Proof.
  unfold delayed_flush_with, send_begins, send_returns, _delayed_flush,
    send_combined.
  destruct (buffer ob); [reflexivity|].
  destruct (_closed ob); reflexivity.
Qed.

(** X16.  Output can be left stranded.  When the delayed flush has woken
    up on an open buffer with queued output and is awaiting [send_bytes],
    a chunk of more than 64 bytes written meanwhile is queued without a
    flush being scheduled, the task still being referenced; when the send
    returns the reference is dropped.  The chunk is then queued with no
    flush task, and no timer wake-up sends it: it stays queued until the
    next [write] or [flush].  (With nothing run during the send, the two
    halves of the body are the one-step [_delayed_flush].) *)
Theorem write_during_send_left_queued
  (ob : OutputBuffer) (data : bytes) (now wake : Z)
  (Hopen : _closed ob = false)
  (Hqueued : buffer ob ≠ [])
  (Htask : _flush_task ob = Some (Sleeping wake))
  (Hlarge : IMMEDIATE_MAX < len data) :
  let ob' := delayed_flush_with (write data now) ob in
  delayed_flush_with (fun ob1 => ob1) ob = _delayed_flush ob
  /\ sent ob' = sent ob ++ [join (buffer ob)]
  /\ buffer ob' = [data]
  /\ _flush_task ob' = None
  /\ _closed ob' = false
  /\ forall t, timer_fires t ob' = ob'.
Proof.
  split; [apply delayed_flush_with_nothing|].
  unfold delayed_flush_with, send_begins.
  destruct (buffer ob) as [|c queue] eqn:Hbuf; [congruence|].
  rewrite Hopen. unfold write. cbn [_closed buffer flush_interval _flush_task sent].
  destruct (Z.leb_spec (len data) IMMEDIATE_MAX); [lia|].
  rewrite Htask. unfold send_returns, timer_fires. cbn.
  repeat split.
Qed.

(** A queue of one 65-byte chunk whose flush is due at 8 ms; 70 more bytes
    arrive while it is being sent. *)
Lemma write_during_send_left_queued_witness :
  let ob := write (repeat x61 65) 0 (init DEFAULT_FLUSH_INTERVAL_MS) in
  let ob' := delayed_flush_with (write (repeat x63 70) 8) ob in
  buffer ob' = [repeat x63 70] /\ _flush_task ob' = None.
Proof.
  intros ob ob'.
  destruct (write_during_send_left_queued ob (repeat x63 70) 8 8)
    as (_ & _ & Hbuffer & Htask & _).
  - reflexivity.
  - vm_compute. discriminate.
  - reflexivity.
  - apply Z.ltb_lt. vm_compute. reflexivity.
  - split; [exact Hbuffer | exact Htask].
Defined.

End OutputBufferSendFacts.

(** ** Fake PTY backend: the input side *)

Section FakePTYIOFacts.
Import FakePTY FakePTYIO.

Lemma writes_alive (datas : list bytes) (b : FakePTYBackend) :
  _alive b = true ->
  writes datas b
  = mkFake (_input_buffer b ++ join datas) (_output_queue b) true
           (_rows b) (_cols b) (_spawn_count b) (_resize_count b).
Proof.
  unfold writes. revert b.
  induction datas as [|data datas IH]; intros b Halive; cbn [fold_left].
  - change (join []) with (@nil byte). rewrite app_nil_r.
    destruct b. cbn in *. subst. reflexivity.
  - rewrite IH.
    + unfold write. rewrite Halive. cbn.
      unfold join. cbn [concat]. rewrite app_assoc. reflexivity.
    + unfold write. rewrite Halive. reflexivity.
Qed.

Lemma writes_dead (datas : list bytes) (b : FakePTYBackend) :
  _alive b = false -> writes datas b = b.
Proof.
  unfold writes. intros Hdead.
  induction datas as [|data datas IH]; cbn [fold_left]; [reflexivity|].
  unfold write at 2. rewrite Hdead. exact IH.
Qed.

(** X17.  What is written to a live fake PTY comes back from [get_input]
    complete and in order, once: a second [get_input] returns nothing.
    Writes made after the backend has been killed are not recorded, and
    writing never touches the output queue. *)
Theorem fake_pty_input_round_trip
  (b : FakePTYBackend) (datas more : list bytes)
  (Halive : _alive b = true) :
  fst (get_input (writes datas b)) = _input_buffer b ++ join datas
  /\ fst (get_input (snd (get_input (writes datas b)))) = []
  /\ fst (get_input (writes more (kill (writes datas b))))
     = _input_buffer b ++ join datas
  /\ _output_queue (writes datas b) = _output_queue b.
Proof.
  rewrite (writes_alive datas b Halive).
  rewrite writes_dead by reflexivity.
  repeat split.
Qed.

Lemma fake_pty_input_round_trip_witness :
  fst (get_input (writes [[x6c; x73]; [x0d]] example_backend)) = [x6c; x73; x0d].
Proof.
  exact (proj1 (fake_pty_input_round_trip example_backend [[x6c; x73]; [x0d]]
                  [] eq_refl)).
Defined.

End FakePTYIOFacts.

(** ** The websocket endpoint *)

Section AppFacts.
Import Registry RegistryRuns App.

(** X18.  A reconnect that fails looks the same to the client whatever the
    reason: for an id that is not registered, for a session of another
    user, and for a session whose PTY has died, the endpoint sends the one
    error message ["Session not found or unauthorized"], closes the socket
    with code 4004 and hands nothing over.  In the first two cases the
    registry's sessions, index and PTYs are as before. *)
Theorem failed_reconnect_uniform
  (factory : PTYFactory) (cols rows : Z) (sid : string)
  (shell user_header : option string) (ws : nat) (uuid : string) (now : Z)
  (w : World)
  (Hsid : sid ≠ "")
  (Hfails : forall s, _sessions w !! sid = Some s ->
              user_id s ≠ default "local-user" user_header
              \/ session_alive s w = false) :
  let out := websocket_terminal factory cols rows (Some sid) shell user_header
               ws uuid now w in
  fst out = mkReply [("error", "Session not found or unauthorized")]
                    (Some 4004) None
  /\ (ws, 4004) ∈ socket_closes (snd out)
  /\ ((forall s, _sessions w !! sid = Some s ->
         user_id s ≠ default "local-user" user_header) ->
      snd out = log_close ws 4004 w).
Proof.
  unfold websocket_terminal.
  destruct (decide (sid = "")) as [?|_]; [contradiction|].
  unfold reconnect_session.
  destruct (_sessions w !! sid) as [s|] eqn:Hs.
  - destruct (bool_decide (user_id s = default "local-user" user_header))
      eqn:Howner; cbn [negb].
    + apply bool_decide_eq_true in Howner.
      destruct (Hfails s eq_refl) as [Hne|Hdead]; [contradiction|].
      rewrite Hdead. cbn. repeat split.
      * apply elem_of_app. right. left.
      * intros Hother. exfalso. exact (Hother s eq_refl Howner).
    + cbn. repeat split. apply elem_of_app. right. left.
  - cbn. repeat split. apply elem_of_app. right. left.
Qed.

Lemma failed_reconnect_uniform_witness :
  fst (websocket_terminal spawning_factory 120 30 (Some "s0") None
         (Some "bob") 9 "s1" 5 world_connected)
  = fst (websocket_terminal spawning_factory 120 30 (Some "nope") None
           (Some "bob") 9 "s1" 5 world_connected).
Proof.
  assert (Hmap : _sessions world_connected = <["s0" := session_s0]> ∅)
    by (vm_compute; reflexivity).
  destruct (failed_reconnect_uniform spawning_factory 120 30 "s0" None
              (Some "bob") 9 "s1" 5 world_connected) as (H1 & _).
  - discriminate.
  - intros s Hs. left. rewrite Hmap, lookup_insert_eq in Hs.
    injection Hs as <-. cbn. discriminate.
  - destruct (failed_reconnect_uniform spawning_factory 120 30 "nope" None
                (Some "bob") 9 "s1" 5 world_connected) as (H2 & _).
    + discriminate.
    + intros s Hs. rewrite Hmap, lookup_insert_ne, lookup_empty in Hs
        by discriminate. discriminate.
    + rewrite H1, H2. reflexivity.
Defined.

(** X19.  A connection that asks for a new session (no [session_id], or an
    empty one) while its user is at the per-user limit, or the registry at
    the global limit, is sent the limit's message as an error and closed
    with code 4005; no PTY is spawned and no session is registered.  A
    connection without the identity header counts as user
    ["local-user"]. *)
Theorem create_at_limit_refused
  (factory : PTYFactory) (cols rows : Z)
  (session_id shell user_header : option string) (ws : nat) (uuid : string)
  (now : Z) (w : World)
  (Hnew : session_id = None \/ session_id = Some "")
  (Hlimit : MAX_SESSIONS_PER_USER
            <= Z.of_nat (size (sessions_of (default "local-user" user_header) w))
            \/ MAX_TOTAL_SESSIONS <= Z.of_nat (size (_sessions w))) :
  let out := websocket_terminal factory cols rows session_id shell user_header
               ws uuid now w in
  close_code (fst out) = Some 4005
  /\ handed_over (fst out) = None
  /\ frames (fst out)
     = [("error",
         if Z.of_nat (size (sessions_of (default "local-user" user_header) w))
            >=? MAX_SESSIONS_PER_USER
         then "Maximum sessions (10) reached for user"
         else "Server session limit reached")]
  /\ snd out = log_close ws 4005 w.
Proof.
  unfold websocket_terminal.
  assert (Hcreate :
    match session_id with
    | Some sid => if decide (sid = "") then None else Some sid
    | None => None
    end = None) by (destruct Hnew as [-> | ->]; reflexivity).
  rewrite Hcreate. unfold create_session.
  destruct (Z.geb_spec
              (Z.of_nat (size (sessions_of (default "local-user" user_header) w)))
              MAX_SESSIONS_PER_USER) as [|Huser].
  - cbn. repeat split.
  - destruct (Z.geb_spec (Z.of_nat (size (_sessions w))) MAX_TOTAL_SESSIONS)
      as [|Hall].
    + cbn. repeat split.
    + destruct Hlimit; lia.
Qed.

Lemma create_at_limit_refused_witness :
  close_code
    (fst (websocket_terminal spawning_factory 120 30 None None (Some "alice")
            9 "s10" 5 world_at_user_limit)) = Some 4005
  /\ snd (websocket_terminal spawning_factory 120 30 None None (Some "alice")
            9 "s10" 5 world_at_user_limit)
     = log_close 9 4005 world_at_user_limit.
Proof.
  assert (Hlimit : MAX_SESSIONS_PER_USER
            <= Z.of_nat (size (sessions_of (default "local-user" (Some "alice"))
                                 world_at_user_limit))
            \/ MAX_TOTAL_SESSIONS
               <= Z.of_nat (size (_sessions world_at_user_limit))).
  { left. apply Z.leb_le. vm_compute. reflexivity. }
  destruct (create_at_limit_refused spawning_factory 120 30 None None
              (Some "alice") 9 "s10" 5 world_at_user_limit
              (or_introl eq_refl) Hlimit) as (Hcode & _ & _ & Hworld).
  split; [exact Hcode | exact Hworld].
Defined.

(** X20.  A connection that asks for a new session and is within the limits
    gets a session of its own: nothing is sent and nothing is closed; the
    session handed to the handler carries the generated id and the caller's
    identity, has an empty replay buffer, and is bound to this socket and
    marked connected, and it is this bound session that the registry holds.
    So when the same user later reconnects to it from another socket while
    the PTY is alive, the first socket is closed with code 4000. *)
Theorem create_binds_socket
  (factory : PTYFactory) (cols rows : Z)
  (query_id shell user_header : option string) (ws ws2 : nat)
  (uuid : string) (now later : Z) (w : World)
  (pty : nat) (heap : gmap nat SecurePTYManager)
  (Hnew : query_id = None \/ query_id = Some "")
  (Huser : Z.of_nat (size (sessions_of (default "local-user" user_header) w))
           < MAX_SESSIONS_PER_USER)
  (Hall : Z.of_nat (size (_sessions w)) < MAX_TOTAL_SESSIONS)
  (Hspawn : factory shell cols rows (ptys w) = (Ok pty, heap))
  (Hlive : is_alive <$> heap !! pty = Some true) :
  let out := websocket_terminal factory cols rows query_id shell user_header
               ws uuid now w in
  exists s,
    fst out = mkReply [] None (Some s)
    /\ session_id s = uuid
    /\ user_id s = default "local-user" user_header
    /\ output_buffer s = []
    /\ websocket s = Some ws /\ is_connected s = true
    /\ _sessions (snd out) !! uuid = Some s
    /\ socket_closes (snd out) = socket_closes w
    /\ socket_closes
         (snd (reconnect_session uuid (default "local-user" user_header)
                 ws2 later (snd out)))
       = socket_closes w ++ [(ws, 4000)].
Proof.
  unfold websocket_terminal.
  assert (Hcreate :
    match query_id with
    | Some sid => if decide (sid = "") then None else Some sid
    | None => None
    end = None) by (destruct Hnew as [-> | ->]; reflexivity).
  rewrite Hcreate. unfold create_session.
  destruct (Z.geb_spec
              (Z.of_nat (size (sessions_of (default "local-user" user_header) w)))
              MAX_SESSIONS_PER_USER); [lia|].
  destruct (Z.geb_spec (Z.of_nat (size (_sessions w))) MAX_TOTAL_SESSIONS);
    [lia|].
  rewrite Hspawn. cbn.
  eexists. split; [reflexivity|]. cbn.
  rewrite lookup_insert_eq.
  repeat split.
  match goal with |- context [reconnect_session _ _ _ _ ?x] => set (w1 := x) end.
  set (s1 := set_connection
               (new_session uuid (default "local-user" user_header) pty
                  (shell_or_default shell) now) (Some ws) true) in *.
  assert (Hs1 : _sessions w1 !! uuid = Some s1) by apply lookup_insert_eq.
  assert (Halive1 : session_alive s1 w1 = true).
  { unfold session_alive. cbn.
    destruct (heap !! pty) as [m|]; cbn in Hlive; [|discriminate].
    injection Hlive as ->. reflexivity. }
  rewrite (reconnect_session_live w1 uuid
             (default "local-user" user_header) ws2 later s1 Hs1 eq_refl
             Halive1).
  reflexivity.
Qed.

Lemma create_binds_socket_witness :
  exists s,
    handed_over
      (fst (websocket_terminal spawning_factory 120 30 None None None 7 "s0" 0
              empty_world)) = Some s
    /\ user_id s = "local-user" /\ websocket s = Some 7%nat.
Proof.
  destruct (create_binds_socket spawning_factory 120 30 None None None 7 8
              "s0" 0 1 empty_world 0%nat
              (<[0%nat := mkPTY None 120 30 true]> ∅))
    as (s & Hout & _ & Hu & _ & Hws & _).
  - left. reflexivity.
  - apply Z.ltb_lt. vm_compute. reflexivity.
  - apply Z.ltb_lt. vm_compute. reflexivity.
  - vm_compute. reflexivity.
  - rewrite lookup_insert_eq. reflexivity.
  - exists s. rewrite Hout. cbn. split; [reflexivity|]. split; assumption.
Defined.

End AppFacts.

(** ** The PTY-to-socket pump *)

Section PumpFacts.
Import ReplayBuffer OutputBuffer OutputBufferRuns Pump.

Lemma produced_cons (e : pump_event) (events : list pump_event) :
  produced (e :: events) = produced [e] ++ produced events.
Proof. unfold produced. cbn. rewrite app_nil_r. reflexivity. Qed.

Lemma pump_invariant (events : list pump_event) (h : list bytes)
  (s : TerminalSession) (ob : OutputBuffer) :
  is_connected s = true ->
  output_buffer s
  = most_recent_fitting OUTPUT_BUFFER_MAX_BYTES (since_last_clear h) ->
  output_buffer_size s = total (output_buffer s) ->
  _closed ob = false ->
  let s' := fst (pump events (s, ob)) in
  let ob' := snd (pump events (s, ob)) in
  output_buffer s'
  = most_recent_fitting OUTPUT_BUFFER_MAX_BYTES
      (since_last_clear (h ++ produced events))
  /\ output_buffer_size s' = total (output_buffer s')
  /\ is_connected s' = true
  /\ _closed ob' = false
  /\ join (sent ob') ++ join (buffer ob')
     = join (sent ob) ++ join (buffer ob) ++ join (produced events).
Proof.
  unfold pump. revert h s ob.
  induction events as [|e events IH]; intros h s ob Hconn Hbuf Hsize Hopen.
  - cbn [fold_left fst snd produced flat_map]. rewrite app_nil_r.
    change (join []) with (@nil byte). rewrite !app_nil_r.
    repeat split; assumption.
  - cbn [fold_left]. rewrite produced_cons, app_assoc, join_app.
    assert (Hstep : exists s1 ob1,
      pump_step (s, ob) e = (s1, ob1)
      /\ is_connected s1 = true
      /\ output_buffer s1
         = most_recent_fitting OUTPUT_BUFFER_MAX_BYTES
             (since_last_clear (h ++ produced [e]))
      /\ output_buffer_size s1 = total (output_buffer s1)
      /\ _closed ob1 = false
      /\ join (sent ob1) ++ join (buffer ob1)
         = join (sent ob) ++ join (buffer ob) ++ join (produced [e])).
    { assert (Hidle : join (sent ob) ++ join (buffer ob)
                      = join (sent ob) ++ join (buffer ob) ++ join [])
        by (change (join []) with (@nil byte); rewrite !app_nil_r;
            reflexivity).
      destruct e as [alive data now|now]; cbn [pump_step].
      - unfold read_pty_output_step. rewrite Hconn.
        destruct alive;
          [|exists s, ob; cbn [produced flat_map]; rewrite app_nil_r;
            repeat split; assumption].
        destruct data as [|c data];
          [exists s, ob; cbn [produced flat_map]; rewrite app_nil_r;
           repeat split; assumption|].
        eexists _, _. split; [reflexivity|].
        destruct (add_to_buffer_cap_step OUTPUT_BUFFER_MAX_BYTES h (c :: data)
                    s Hbuf Hsize) as [Hbuf' Hsize'].
        destruct (add_to_buffer_cap_fields OUTPUT_BUFFER_MAX_BYTES (c :: data) s)
          as (_ & _ & _ & _ & Hconn').
        destruct (apply_event_open ob (Write (c :: data) now) eq_refl Hopen)
          as [Hopen' Hstream].
        cbn [produced flat_map app]. cbn [touch output_buffer
          output_buffer_size is_connected].
        split; [rewrite <- Hconn; exact Hconn'|].
        split; [exact Hbuf'|]. split; [exact Hsize'|].
        split; [exact Hopen' | exact Hstream].
      - exists s, (timer_fires now ob). split; [reflexivity|].
        destruct (apply_event_open ob (TimerFires now) eq_refl Hopen)
          as [Hopen' Hstream].
        cbn [produced flat_map]. rewrite app_nil_r.
        repeat split; assumption. }
    destruct Hstep as (s1 & ob1 & -> & Hconn1 & Hbuf1 & Hsize1 & Hopen1 & Hs1).
    destruct (IH (h ++ produced [e]) s1 ob1 Hconn1 Hbuf1 Hsize1 Hopen1)
      as (Hb & Hz & Hc & Ho & Hst).
    repeat split; try assumption.
    rewrite Hst, app_assoc, Hs1, <- !app_assoc. reflexivity.
Qed.

(** X21.  The pump loses nothing on either side.  Starting with a connected
    session whose replay buffer is empty and an output buffer that is not
    closed, after any number of loop iterations and timer wake-ups: the
    bytes handed to the socket followed by the bytes still queued are
    those that were there followed by everything the PTY produced, in order;
    the replay snapshot is a tail of everything the PTY produced; and the
    running size of the replay buffer is at most the cap. *)
Theorem pump_delivers_and_records
  (events : list pump_event) (s : TerminalSession) (ob : OutputBuffer)
  (Hconn : is_connected s = true)
  (Hbuf : output_buffer s = []) (Hsize : output_buffer_size s = 0)
  (Hopen : _closed ob = false) :
  let s' := fst (pump events (s, ob)) in
  let ob' := snd (pump events (s, ob)) in
  join (sent ob') ++ join (buffer ob')
  = join (sent ob) ++ join (buffer ob) ++ join (produced events)
  /\ (exists dropped,
        join (produced events) = dropped ++ get_buffered_output s')
  /\ 0 <= output_buffer_size s' <= OUTPUT_BUFFER_MAX_BYTES.
Proof.
  destruct (pump_invariant events [] s ob Hconn) as (Hb & Hz & _ & _ & Hst).
  - rewrite Hbuf. reflexivity.
  - rewrite Hbuf, Hsize. reflexivity.
  - exact Hopen.
  - cbn [app] in Hb. split; [exact Hst|]. split.
    + unfold get_buffered_output. rewrite Hb.
      destruct (since_last_clear_suffix (produced events)) as [before Hbefore].
      destruct (most_recent_fitting_suffix OUTPUT_BUFFER_MAX_BYTES
                  (since_last_clear (produced events))) as [dropped Hdropped].
      exists (join (before ++ dropped)).
      rewrite Hbefore at 1. rewrite Hdropped at 1.
      rewrite !join_app, app_assoc. reflexivity.
    + rewrite Hz, Hb. split; [apply total_nonneg|].
      apply most_recent_fitting_bound, cap_nonneg.
Qed.

End PumpFacts.

Section PumpExamples.
Import Registry ReplayBuffer OutputBuffer Pump.

(** Two bytes are read and sent at once; a wake-up and a read from a dead
    PTY change nothing. *)
Lemma pump_delivers_and_records_witness :
  let st := pump [Iteration true [x68; x69] 0; Wakeup 8; Iteration false [] 9]
              (session_s0, init DEFAULT_FLUSH_INTERVAL_MS) in
  join (sent (snd st)) ++ join (buffer (snd st)) = [x68; x69]
  /\ 0 <= output_buffer_size (fst st) <= OUTPUT_BUFFER_MAX_BYTES.
Proof.
  intros st.
  destruct (pump_delivers_and_records
              [Iteration true [x68; x69] 0; Wakeup 8; Iteration false [] 9]
              session_s0 (init DEFAULT_FLUSH_INTERVAL_MS)
              eq_refl eq_refl eq_refl eq_refl) as (Hstream & _ & Hsize).
  split; [|exact Hsize].
  unfold st. rewrite Hstream. reflexivity.
Defined.

End PumpExamples.

(** ** JSON input: encoding *)

Section Utf8Facts.
Import RateLimiter InputPath Dispatch.
Context {R : Type} `{Arith R}.


Lemma utf8_encode_cp_surrogate (c : Z) :
  55296 <= c <= 57343 -> utf8_encode_cp c = None.
Proof.
  intros Hc. unfold utf8_encode_cp.
  destruct (Z.ltb_spec c 0); [reflexivity|].
  destruct (Z.ltb_spec c 128); [lia|].
  destruct (Z.ltb_spec c 2048); [lia|].
  destruct (Z.leb_spec 55296 c); [|lia].
  destruct (Z.leb_spec c 57343); [reflexivity|lia].
Qed.

Lemma utf8_encode_surrogate (data : text) (c : Z) :
  c ∈ data -> 55296 <= c <= 57343 -> utf8_encode data = None.
Proof.
  intros Hin Hc. induction data as [|d data IH]; [inversion Hin|].
  cbn [utf8_encode].
  apply elem_of_cons in Hin as [<-|Hin].
  - rewrite utf8_encode_cp_surrogate by exact Hc. reflexivity.
  - rewrite (IH Hin). destruct (utf8_encode_cp d); reflexivity.
Qed.



(** X23.  A JSON message of type ["input"] whose data passes the size
    check but contains a surrogate code point: [dispatch] hands it to
    [handle_input], which raises [UnicodeEncodeError] at
    [data.encode("utf-8")]; up to there the handler has sent nothing and
    written nothing, and the rate limiter has not been consulted.
    [dispatch] does not catch the exception. *)
Theorem json_input_surrogate_raises
  (handle_resize : MessageHandler) (ctx : MessageContext R)
  (msg : gmap string text) (data : text) (c : Z) (now : R)
  (Htype : msg !! "type" = Some (str "input"))
  (Hdata : msg !! "data" = Some data)
  (Hsize : Z.of_nat (length data) <= max_input_size ctx)
  (Hin : c ∈ data)
  (Hsurrogate : 55296 <= c <= 57343) :
  dispatch (message_registry handle_resize) msg now ctx
  = ([Raise "UnicodeEncodeError"], ctx).
Proof.
  unfold dispatch. rewrite Htype.
  unfold message_registry, register. rewrite lookup_insert_eq.
  unfold handle_input. cbv zeta. rewrite Hdata. cbn [default]. unfold id.
  destruct (Z.gtb_spec (Z.of_nat (length data)) (max_input_size ctx)); [lia|].
  rewrite (utf8_encode_surrogate data c Hin Hsurrogate).
  destruct data; [inversion Hin | reflexivity].
Qed.

End Utf8Facts.

Section Utf8Examples.
Import RateLimiter InputPath Dispatch.

(** The JSON message [{"type": "input", "data": "\ud800"}]. *)
Lemma json_input_surrogate_raises_witness :
  dispatch (message_registry (fun _ _ ctx => ([Touch], ctx)))
    {[ "type" := str "input"; "data" := [55296] ]} 0%float
    (new_context 0%float)
  = ([Raise "UnicodeEncodeError"], new_context 0%float).
Proof.
  apply (json_input_surrogate_raises (fun _ _ ctx => ([Touch], ctx))
           (new_context 0%float)
           {[ "type" := str "input"; "data" := [55296] ]} [55296] 55296
           0%float).
  - reflexivity.
  - reflexivity.
  - apply Z.leb_le. vm_compute. reflexivity.
  - left.
  - lia.
Defined.

End Utf8Examples.

(** ** A take-over followed by the old handler's teardown *)

Section TakeoverFacts.
Import Registry OutputBuffer Pump.

(** X24.  [disconnect_session] does not look at which socket is bound.
    When a user has reconnected to a live session and the handler of the
    superseded connection then winds down, calling [disconnect_session] as
    its teardown does, the session is left with no socket and not
    connected; from then on an iteration of the pump of the new connection
    forwards nothing, whatever the PTY produces. *)
Theorem takeover_teardown_unbinds
  (w : World) (sid uid : string) (ws : nat) (now later : Z)
  (s : TerminalSession)
  (Hs : _sessions w !! sid = Some s)
  (Howner : user_id s = uid)
  (Halive : session_alive s w = true) :
  let w' := disconnect_session sid later
              (snd (reconnect_session sid uid ws now w)) in
  exists s',
    _sessions w' !! sid = Some s'
    /\ websocket s' = None /\ is_connected s' = false
    /\ output_buffer s' = output_buffer s
    /\ forall alive data t ob,
         read_pty_output_step alive data t (s', ob) = (s', ob).
Proof.
  rewrite (reconnect_session_live w sid uid ws now s Hs Howner Halive).
  unfold disconnect_session. cbn [snd _sessions].
  rewrite lookup_insert_eq. cbn [_sessions].
  eexists. split; [apply lookup_insert_eq|].
  repeat split.
Qed.

Lemma takeover_teardown_unbinds_witness :
  exists s',
    _sessions (disconnect_session "s0" 3
                 (snd (reconnect_session "s0" "alice" 9 2 world_connected)))
      !! "s0" = Some s'
    /\ is_connected s' = false.
Proof.
  assert (Hs : _sessions world_connected !! "s0" = Some session_s0)
    by (vm_compute; reflexivity).
  assert (Halive : session_alive session_s0 world_connected = true)
    by (vm_compute; reflexivity).
  destruct (takeover_teardown_unbinds world_connected "s0" "alice" 9 2 3
              session_s0 Hs eq_refl Halive) as (s' & Hl & _ & Hc & _).
  exists s'. split; assumption.
Defined.

End TakeoverFacts.
